(** * The tool-calling loop of the browser agent (script.js, config.js)

    A shallow embedding of the submit handler of [script.js]: the
    conversation array [messages], the wire view sent to the model, the
    concurrent tool dispatch through [Promise.allSettled], the three tool
    handlers and the bounded reasoning loop.

    The host platform (JSON, URI encoding) and the outside world (the model
    endpoint, the search and workflow services, the evaluation of sandboxed
    code, the order in which awaited handlers settle) are records of
    functions: the general theorems quantify over them, the examples fix a
    sample host and sample worlds. *)

From Stdlib Require Import String Ascii List ZArith Lia DecimalString.
From stdpp Require Import base list strings gmap.
Import ListNotations.

Local Open Scope string_scope.
Local Open Scope list_scope.

Set Warnings "-register-all".

(** ** JavaScript values that travel as JSON *)

(** A parsed JSON value.  Numbers are kept as integers: no claim inspects
    a number. *)
Inductive JSON : Type :=
| JNull
| JBool (b : bool)
| JNum (z : Z)
| JStr (s : string)
| JArr (items : list JSON)
| JObj (fields : list (string * JSON)).

(** [v.key] on a parsed value: [undefined] ([None]) unless [v] is an object
    with that key. *)
Fixpoint assoc (key : string) (fields : list (string * JSON)) : option JSON :=
  match fields with
  | [] => None
  | (k, v) :: rest => if String.eqb k key then Some v else assoc key rest
  end.

Definition prop (key : string) (v : JSON) : option JSON :=
  match v with
  | JObj fields => assoc key fields
  | _ => None
  end.

(** How a call ends: with a text, or with an exception and its message. *)
Inductive Completion : Type :=
| Returned (text : string)
| Threw (message : string).

(** Built-ins of the host the script calls. *)
Record Host : Type := {
  (* JSON.parse(text); None is a thrown SyntaxError *)
  JSON_parse : string -> option JSON;
  (* JSON.stringify(v) *)
  JSON_stringify : JSON -> string;
  (* JSON.stringify(v, null, 2) *)
  JSON_stringify_2 : JSON -> string;
  (* encodeURIComponent(v), which throws URIError on a lone surrogate *)
  encodeURIComponent : option JSON -> Completion;
  (* the text of v inside a template literal *)
  interpolate : option JSON -> string;
  (* message of the TypeError raised when null is destructured *)
  destructure_null : string -> string
}.

(** Decimal text of a number inside a template literal. *)
Definition dec (n : nat) : string := NilEmpty.string_of_uint (Nat.to_uint n).

Definition nl : string := String (ascii_of_nat 10) EmptyString.

(** ** Conversation turns *)

(** [toolCall.id], [toolCall.function.name], [toolCall.function.arguments]. *)
Record ToolCall : Type := {
  tc_id : string;
  tc_name : string;
  tc_arguments : string
}.

(** An element of the [messages] array.  A property the object does not
    carry is [None]; an absent [isDisplayOnly] is falsy. *)
Record Msg : Type := {
  role : string;
  name : option string;
  content : option string;
  tool_calls : option (list ToolCall);
  tool_call_id : option string;
  isDisplayOnly : bool;
  toolCallIndex : option nat
}.

Definition userTurn (question : string) : Msg :=
  {| role := "user"; name := None; content := Some question;
     tool_calls := None; tool_call_id := None;
     isDisplayOnly := false; toolCallIndex := None |}.

(** [agentPrompt()] of config.js. *)
Definition agentPrompt : string :=
"You are an intelligent multi-tool reasoning agent. Your goal is to help users accomplish their tasks by automatically using the appropriate tools and reasoning through problems step by step.

Key behaviors:
1. Be proactive - if a user asks something that could benefit from web search, code execution, or AI workflows, use those tools automatically
2. Chain tool calls logically - search for information first, then process it with code or workflows as needed
3. Always explain what you're doing and why you're using specific tools
4. For calculations, use JavaScript execution to show your work
5. For current information, use Google search
6. For AI workflows, use simple workflow names like 'summarize', 'sentiment', 'expand-content' with appropriate text payload
7. Be conversational and helpful - guide users through multi-step processes

Available tools: 
- google_search: Search the web for current information
- execute_javascript: Run calculations and data processing
- aipipe_workflow: Use AI workflows for text processing (workflow names: 'summarize', 'sentiment', 'expand-content')

Important: For AI workflows, use workflow names (not URLs) and include text content in the payload.".

Definition systemTurn : Msg :=
  {| role := "system"; name := None; content := Some agentPrompt;
     tool_calls := None; tool_call_id := None;
     isDisplayOnly := false; toolCallIndex := None |}.

(** The message of a chat-completions reply, pushed as it is. *)
Definition assistantTurn (text : option string) (calls : option (list ToolCall)) : Msg :=
  {| role := "assistant"; name := None; content := text;
     tool_calls := calls; tool_call_id := None;
     isDisplayOnly := false; toolCallIndex := None |}.

(** The two turns pushed when a cycle fails (lines 752-756 and 762-766). *)
Definition errorTurn (text : string) : Msg :=
  {| role := "assistant"; name := Some "error"; content := Some text;
     tool_calls := None; tool_call_id := None;
     isDisplayOnly := false; toolCallIndex := None |}.

Definition maxLoopsText : string :=
  "⚠️ Agent reached maximum loop limit. The task may not be fully complete.".

(** The message of the exception of line 646. *)
Definition apiError (status : nat) (statusText errorText : string) : string :=
  "API Error: " +:+ dec status +:+ " " +:+ statusText +:+ nl +:+ errorText.

Definition caughtText (message : string) : string :=
  "❌ **Error occurred:**" +:+ nl +:+ message.

Section Dispatch.

Context (H : Host).

(** [displayMessage] of line 672: the tool-call announcement. *)
Definition displayMessage (total index : nat) (functionName : string) (args : JSON) : Msg :=
  {| role := "assistant"; name := Some "tool-call";
     content := Some ("🔧 **Calling tool: " +:+ functionName +:+ "** ("
                      +:+ dec (index + 1) +:+ "/" +:+ dec total +:+ ")" +:+ nl
                      +:+ "```json" +:+ nl +:+ JSON_stringify_2 H args +:+ nl +:+ "```");
     tool_calls := None; tool_call_id := None;
     isDisplayOnly := true; toolCallIndex := Some index |}.

(** [toolResultMessage] of line 702: the result sent to the model. *)
Definition toolResultMessage (tc : ToolCall) (result : string) : Msg :=
  {| role := "tool"; name := Some (tc_name tc); content := Some result;
     tool_calls := None; tool_call_id := Some (tc_id tc);
     isDisplayOnly := false; toolCallIndex := None |}.

(** [displayResult] of line 710: its copy for the page. *)
Definition displayResult (index : nat) (tc : ToolCall) (result : string) : Msg :=
  {| role := "tool"; name := Some (tc_name tc); content := Some result;
     tool_calls := None; tool_call_id := None;
     isDisplayOnly := true; toolCallIndex := Some index |}.

End Dispatch.

(** ** Tool handlers *)

(** What a handler does up to the moment it settles: the URLs it passes to
    [fetch], and how it ends. *)
Record HandlerRun : Type := {
  fetched : list string;
  completion : Completion
}.

(** The place of a handler invocation: loop iteration and request index. *)
Definition Site : Type := (nat * nat)%type.

(** An answer of the model endpoint to one [fetch] of the loop. *)
Inductive ModelReply : Type :=
(* fetch rejected, or the body is not the expected JSON: an exception with this message *)
| ReplyThrew (message : string)
(* response.ok is false *)
| HttpError (status : nat) (statusText errorText : string)
(* responseData.choices[0].message *)
| Reply (text : option string) (calls : option (list ToolCall)).

(** The world outside the page. *)
Record World : Type := {
  (* the endpoint's answer to the call of iteration i with these messages *)
  llm : nat -> list Msg -> ModelReply;
  (* the text the try block of google_search ends with (lines 135-180) *)
  search_api : Site -> string -> option JSON -> string;
  (* the text the try block of aipipe_workflow ends with (lines 201-232);
     the flag tells whether a key was configured *)
  workflow_api : Site -> string -> bool -> option JSON -> string;
  (* the text execute_javascript ends with for this code (lines 77-116) *)
  sandbox_eval : Site -> option JSON -> string;
  (* the order in which the awaited handlers of iteration i settle *)
  settles : nat -> list nat
}.

(** [document.getElementById(id)?.value] reads the page's inputs. *)
Definition Document : Type := gmap string string.

(** The value of an input when it is truthy. *)
Definition truthy (v : option string) : option string :=
  match v with
  | Some EmptyString => None
  | other => other
  end.

Section Handlers.

Context (H : Host) (W : World) (doc : Document).

Definition configRequired : JSON :=
  JObj [("error", JStr "Google Search API Key or CX ID is missing. Please configure them in the sidebar.");
        ("configRequired", JBool true)].

(** [google_search({ query })], lines 122-181. *)
Definition google_search (site : Site) (query : option JSON) : HandlerRun :=
  let apiKey := doc !! "param-google-cse-key" in
  let cx := doc !! "param-google-cse-cx" in
  match truthy apiKey, truthy cx with
  | Some key, Some id =>
      match encodeURIComponent H query with
      | Threw message => {| fetched := []; completion := Threw message |}
      | Returned q =>
          let url := "https://www.googleapis.com/customsearch/v1?key=" +:+ key
                     +:+ "&cx=" +:+ id +:+ "&q=" +:+ q in
          {| fetched := [url];
             completion := Returned (search_api W site url query) |}
      end
  | _, _ =>
      {| fetched := [];
         completion := Returned (JSON_stringify H configRequired) |}
  end.

(** [aipipe_workflow({ workflow, payload })], lines 186-233. *)
Definition aipipe_workflow (site : Site) (workflow payload : option JSON) : HandlerRun :=
  let apiKey := doc !! "param-aipipe-key" in
  let workflowUrl := "https://aipipe.org/api/" +:+ interpolate H workflow in
  {| fetched := [workflowUrl];
     completion := Returned (workflow_api W site workflowUrl
                               (bool_decide (is_Some (truthy apiKey))) payload) |}.

(** [execute_javascript({ code })], lines 76-117: the whole body is one
    try/catch that returns text on both paths. *)
Definition execute_javascript (site : Site) (code : option JSON) : HandlerRun :=
  {| fetched := []; completion := Returned (sandbox_eval W site code) |}.

(** Binding the parameter pattern [{ first, ... }] to [args]: null cannot be
    destructured, every other parsed value can. *)
Definition destructuring (first : string) (args : JSON) (body : HandlerRun) : HandlerRun :=
  match args with
  | JNull => {| fetched := []; completion := Threw (destructure_null H first) |}
  | _ => body
  end.

(** The switch of lines 684-696; [None] is its default branch. *)
Definition call_handler (site : Site) (functionName : string) (args : JSON) : option HandlerRun :=
  if String.eqb functionName "google_search" then
    Some (destructuring "query" args (google_search site (prop "query" args)))
  else if String.eqb functionName "aipipe_workflow" then
    Some (destructuring "workflow" args
            (aipipe_workflow site (prop "workflow" args) (prop "payload" args)))
  else if String.eqb functionName "execute_javascript" then
    Some (destructuring "code" args (execute_javascript site (prop "code" args)))
  else None.

End Handlers.

(** ** The page state the submit handler works on *)

(** What the handler does besides changing [messages], in program order. *)
Inductive Event : Type :=
| EvRender (snapshot : list Msg)                (* renderSteps(messages) *)
| EvModelCall (apiMessages : list Msg)           (* fetch of /chat/completions *)
| EvInvoke (index : nat) (functionName : string) (args : JSON)  (* a handler starts *)
| EvFetch (url : string)                         (* fetch by a tool handler *)
| EvWarn (failed : nat).                         (* console.warn of line 735 *)

Record State : Type := {
  messages : list Msg;
  isProcessing : bool;
  trace : list Event
}.

Definition push (m : Msg) (st : State) : State :=
  {| messages := messages st ++ [m];
     isProcessing := isProcessing st;
     trace := trace st |}.

Definition push_all (ms : list Msg) (st : State) : State :=
  {| messages := messages st ++ ms;
     isProcessing := isProcessing st;
     trace := trace st |}.

Definition unshift (m : Msg) (st : State) : State :=
  {| messages := m :: messages st;
     isProcessing := isProcessing st;
     trace := trace st |}.

Definition log (e : Event) (st : State) : State :=
  {| messages := messages st;
     isProcessing := isProcessing st;
     trace := trace st ++ [e] |}.

Definition renderSteps (st : State) : State := log (EvRender (messages st)) st.

Definition showTyping (show : bool) (st : State) : State :=
  {| messages := messages st;
     isProcessing := show;
     trace := trace st |}.

(** Line 627: the messages sent to the model. *)
Definition wireView (ms : list Msg) : list Msg :=
  List.filter (fun msg => negb (isDisplayOnly msg)) ms.

(** ** Tool dispatch, lines 663-736 *)

(** One callback of [toolCalls.map(async ...)]: suspended at its await,
    or settled as [Promise.allSettled] reports it. *)
Inductive Task : Type :=
| Awaiting (tc : ToolCall) (how : Completion)
| Fulfilled (value : Msg)
| Rejected.

Definition fulfilled (t : Task) : option Msg :=
  match t with
  | Fulfilled value => Some value
  | _ => None
  end.

Definition rejected (t : Task) : bool :=
  match t with
  | Rejected => true
  | _ => false
  end.

Section Loop.

Context (H : Host) (W : World) (doc : Document).

(** The value of [result] after the try/catch of lines 683-699. *)
Definition resultText (how : Completion) : string :=
  match how with
  | Returned text => text
  | Threw message =>
      JSON_stringify H (JObj [("error", JStr ("Tool execution failed: " +:+ message))])
  end.

Definition unknownTool (functionName : string) : string :=
  JSON_stringify H (JObj [("error", JStr ("Unknown tool: " +:+ functionName))]).

(** Lines 701-721: the callback from [result] to its return. *)
Definition finish_call (index : nat) (tc : ToolCall) (result : string) (st : State)
  : Task * State :=
  (Fulfilled (toolResultMessage tc result),
   renderSteps (push (displayResult index tc result) st)).

(** Lines 668-696: the callback runs, inside [map], up to its first await.
    The default branch of the switch has none and runs to the end. *)
Definition begin_call (i total index : nat) (tc : ToolCall) (st : State) : Task * State :=
  let functionName := tc_name tc in
  match JSON_parse H (tc_arguments tc) with
  | None => (Rejected, st)
  | Some args =>
      let st1 := renderSteps (push (displayMessage H total index functionName args) st) in
      match call_handler H W doc (i, index) functionName args with
      | Some run =>
          (Awaiting tc (completion run),
           fold_left (fun s url => log (EvFetch url) s) (fetched run)
             (log (EvInvoke index functionName args) st1))
      | None => finish_call index tc (unknownTool functionName) st1
      end
  end.

Fixpoint begin_calls (i total index : nat) (calls : list ToolCall) (st : State)
  : list Task * State :=
  match calls with
  | [] => ([], st)
  | tc :: rest =>
      let '(t, st1) := begin_call i total index tc st in
      let '(ts, st2) := begin_calls i total (S index) rest st1 in
      (t :: ts, st2)
  end.

(** The awaited handler of callback [k] settles and the callback runs to
    its end; nothing happens when callback [k] is not waiting. *)
Definition resume (k : nat) (p : list Task * State) : list Task * State :=
  match fst p !! k with
  | Some (Awaiting tc how) =>
      let '(t, st1) := finish_call k tc (resultText how) (snd p) in
      (<[k := t]> (fst p), st1)
  | _ => p
  end.

Definition settle (order : list nat) (p : list Task * State) : list Task * State :=
  fold_left (fun acc k => resume k acc) order p.

(** The whole dispatch.  The awaited handlers settle in the order [order]
    lists them, then the ones it leaves out in request order:
    [Promise.allSettled] resolves when none is waiting. *)
Definition dispatch (order : list nat) (i : nat) (toolCalls : list ToolCall) (st : State)
  : State :=
  let total := length toolCalls in
  let started := begin_calls i total 0 toolCalls st in
  let settled := settle (order ++ seq 0 total) started in
  let toolResults := fst settled in
  let actualToolResults := omap fulfilled toolResults in
  let st2 := push_all actualToolResults (snd settled) in
  let failedCalls := List.filter rejected toolResults in
  if (0 <? length failedCalls)%nat then log (EvWarn (length failedCalls)) st2 else st2.

(** ** The reasoning loop, lines 588-772 *)

Inductive Terminal : Type :=
| Answered
| MaxIterations
| Failed (message : string).

Definition maxLoops : nat := 10.

(** The catch block of lines 760-768. *)
Definition catch (message : string) (st : State) : State :=
  renderSteps (push (errorTurn (caughtText message)) st).

(** The for loop from iteration [i] with [remaining] iterations left, and
    the statements after it. *)
Fixpoint loop (remaining i : nat) (st : State) : Terminal * State :=
  match remaining with
  | 0 => (MaxIterations, renderSteps (push (errorTurn maxLoopsText) st))
  | S remaining' =>
      let apiMessages := wireView (messages st) in
      let st1 := log (EvModelCall apiMessages) st in
      match llm W i apiMessages with
      | ReplyThrew message => (Failed message, catch message st1)
      | HttpError status statusText errorText =>
          let message := apiError status statusText errorText in
          (Failed message, catch message st1)
      | Reply text calls =>
          let st2 := push (assistantTurn text calls) st1 in
          match calls with
          | Some toolCalls =>
              loop remaining' (S i) (dispatch (settles W i) i toolCalls (renderSteps st2))
          | None =>
              (Answered, renderSteps (showTyping false (renderSteps (showTyping false st2))))
          end
      end
  end.

(** The submit listener.  [question] is the trimmed input; [None] is a
    submission the guards of lines 591-597 turn away. *)
Definition submit (question : string) (st : State) : option Terminal * State :=
  if isProcessing st then (None, st)
  else if String.eqb question "" then (None, st)
  else match truthy (doc !! "apiKeyInput") with
  | None => (None, st)
  | Some _ =>
      let st1 := renderSteps (push (userTurn question) (showTyping true st)) in
      let st2 := if (length (messages st1) =? 1)%nat then unshift systemTurn st1 else st1 in
      let '(t, st3) := loop maxLoops 0 st2 in
      (Some t, showTyping false st3)
  end.

End Loop.

(** ** Reading a run *)

(** The turns a step added to the array. *)
Definition appended (st st' : State) : list Msg :=
  drop (length (messages st)) (messages st').

(** A tool result for the model, its copy for the page, an error turn. *)
Definition isWireResult (m : Msg) : bool :=
  String.eqb (role m) "tool" && negb (isDisplayOnly m).

Definition isDisplayResult (m : Msg) : bool :=
  String.eqb (role m) "tool" && isDisplayOnly m.

Definition isErrorTurn (m : Msg) : bool :=
  String.eqb (role m) "assistant"
  && match name m with Some n => String.eqb n "error" | None => false end.

(** The message lists of the model calls in a trace, in call order. *)
Definition model_call (e : Event) : option (list Msg) :=
  match e with
  | EvModelCall apiMessages => Some apiMessages
  | _ => None
  end.

Definition model_calls (tr : list Event) : list (list Msg) := omap model_call tr.

(** An event that is not a model call. *)
Definition quiet (e : Event) : Prop := model_call e = None.

(** A turn for the page only, and not an error turn. *)
Definition page_turn (m : Msg) : Prop :=
  isDisplayOnly m = true /\ isWireResult m = false /\ isErrorTurn m = false.

(** A tool result for the model. *)
Definition wire_turn (m : Msg) : Prop :=
  isDisplayOnly m = false /\ isWireResult m = true /\ isDisplayResult m = false
  /\ isErrorTurn m = false.

(** The names the switch of lines 684-696 has a case for. *)
Definition known (functionName : string) : bool :=
  String.eqb functionName "google_search"
  || String.eqb functionName "aipipe_workflow"
  || String.eqb functionName "execute_javascript".

(** The model calls made from state [st] to state [st']. *)
Definition calls_since (st st' : State) : list (list Msg) :=
  drop (length (model_calls (trace st))) (model_calls (trace st')).

(** The number of error turns in the array. *)
Definition errors (st : State) : nat :=
  length (List.filter isErrorTurn (messages st)).

Definition parses (H : Host) (tc : ToolCall) : bool :=
  match JSON_parse H (tc_arguments tc) with
  | Some _ => true
  | None => false
  end.

Section Results.

Context (H : Host) (W : World) (doc : Document).

(** The result text of request [index] of iteration [i], from that request
    and its own site alone; [None] when its arguments do not parse. *)
Definition outcome (i index : nat) (tc : ToolCall) : option string :=
  match JSON_parse H (tc_arguments tc) with
  | None => None
  | Some args =>
      Some match call_handler H W doc (i, index) (tc_name tc) args with
           | Some run => resultText H (completion run)
           | None => unknownTool H (tc_name tc)
           end
  end.

(** The tool results for the model, request by request. *)
Fixpoint wire_results (i index : nat) (calls : list ToolCall) : list Msg :=
  match calls with
  | [] => []
  | tc :: rest =>
      match outcome i index tc with
      | Some text => toolResultMessage tc text :: wire_results i (S index) rest
      | None => wire_results i (S index) rest
      end
  end.

(** The callback of request [index] when [map] returns. *)
Definition begin_task (i index : nat) (tc : ToolCall) : Task :=
  match JSON_parse H (tc_arguments tc) with
  | None => Rejected
  | Some args =>
      match call_handler H W doc (i, index) (tc_name tc) args with
      | Some run => Awaiting tc (completion run)
      | None => Fulfilled (toolResultMessage tc (unknownTool H (tc_name tc)))
      end
  end.

Fixpoint begin_tasks (i index : nat) (calls : list ToolCall) : list Task :=
  match calls with
  | [] => []
  | tc :: rest => begin_task i index tc :: begin_tasks i (S index) rest
  end.

(** The turns the callback of request [index] pushes before [map] returns. *)
Definition begin_msgs (i total index : nat) (tc : ToolCall) : list Msg :=
  match JSON_parse H (tc_arguments tc) with
  | None => []
  | Some args =>
      displayMessage H total index (tc_name tc) args ::
      match call_handler H W doc (i, index) (tc_name tc) args with
      | Some _ => []
      | None => [displayResult index tc (unknownTool H (tc_name tc))]
      end
  end.

Fixpoint begins_msgs (i total index : nat) (calls : list ToolCall) : list Msg :=
  match calls with
  | [] => []
  | tc :: rest => begin_msgs i total index tc ++ begins_msgs i total (S index) rest
  end.

(** A waiting callback once its handler has settled. *)
Definition settle_task (t : Task) : Task :=
  match t with
  | Awaiting tc how => Fulfilled (toolResultMessage tc (resultText H how))
  | other => other
  end.


(** The turn pushed when callback [k] is resumed. *)
Definition display_of (tasks : list Task) (k : nat) : list Msg :=
  match tasks !! k with
  | Some (Awaiting tc how) => [displayResult k tc (resultText H how)]
  | _ => []
  end.

(** The turns pushed while the callbacks are resumed in [order]. *)
Fixpoint settle_msgs (order : list nat) (tasks : list Task) : list Msg :=
  match order with
  | [] => []
  | k :: rest => display_of tasks k ++ settle_msgs rest (alter settle_task k tasks)
  end.

(** The page-only turns of one dispatch. *)
Definition display_part (order : list nat) (i : nat) (calls : list ToolCall) : list Msg :=
  begins_msgs i (length calls) 0 calls
  ++ settle_msgs (order ++ seq 0 (length calls)) (begin_tasks i 0 calls).

End Results.

(** ** A sample host and world *)

Definition quote : string := String (ascii_of_nat 34) EmptyString.

(** A printer in the shape of [JSON.stringify], without string escapes. *)
Fixpoint print (v : JSON) : string :=
  match v with
  | JNull => "null"
  | JBool true => "true"
  | JBool false => "false"
  | JNum z => NilZero.string_of_int (Z.to_int z)
  | JStr s => quote +:+ s +:+ quote
  | JArr items => "[" +:+ String.concat "," (map print items) +:+ "]"
  | JObj fields =>
      "{" +:+ String.concat ","
                (map (fun kv => quote +:+ fst kv +:+ quote +:+ ":" +:+ print (snd kv)) fields)
      +:+ "}"
  end.

(** A host that parses the texts [{}], [[]] and [null], and finds a
    syntax error in every other text the examples use. *)
Definition sampleHost : Host :=
  {| JSON_parse := fun text =>
       if String.eqb text "{}" then Some (JObj [])
       else if String.eqb text "[]" then Some (JArr [])
       else if String.eqb text "null" then Some JNull
       else None;
     JSON_stringify := print;
     JSON_stringify_2 := print;
     encodeURIComponent := fun v =>
       match v with
       | Some (JStr s) => Returned s
       | _ => Returned "undefined"
       end;
     interpolate := fun v =>
       match v with
       | Some (JStr s) => s
       | _ => "undefined"
       end;
     destructure_null := fun first =>
       "Cannot destructure property '" +:+ first +:+ "' of 'object null' as it is null." |}.

(** A world whose model asks for the given calls at every iteration, whose
    services answer with fixed texts, and whose handlers settle in reverse
    request order. *)
Definition sampleWorld (calls : list ToolCall) : World :=
  {| llm := fun _ _ => Reply None (Some calls);
     search_api := fun _ _ _ => "search";
     workflow_api := fun _ _ _ _ => "workflow";
     sandbox_eval := fun _ _ => "sandbox";
     settles := fun _ => rev (seq 0 (length calls)) |}.

Definition emptyState : State :=
  {| messages := []; isProcessing := false; trace := [] |}.

Definition call (id functionName arguments : string) : ToolCall :=
  {| tc_id := id; tc_name := functionName; tc_arguments := arguments |}.

(** A world whose endpoint answers the first call of a conversation (a
    system turn and one user turn) with status 500 and any other call with
    a final text. *)
Definition failingWorld : World :=
  {| llm := fun _ apiMessages =>
       if (length apiMessages =? 2)%nat
       then HttpError 500 "Internal Server Error" "upstream unavailable"
       else Reply (Some "Done.") None;
     search_api := fun _ _ _ => "search";
     workflow_api := fun _ _ _ _ => "workflow";
     sandbox_eval := fun _ _ => "sandbox";
     settles := fun _ => [] |}.

(** A page with the model key filled in and no search configuration. *)
Definition samplePage : Document := {[ "apiKeyInput" := "sk-sample" ]}.

(** ** The scope of the code [execute_javascript] runs *)

(** [Object.keys(sandboxGlobals)], lines 79-91: the parameter names of the
    function made by [new Function]. *)
Definition sandboxGlobals : list string :=
  ["Math"; "Date"; "JSON"; "parseInt"; "parseFloat"; "isNaN"; "isFinite";
   "Array"; "Object"; "String"; "Number"; "Boolean"; "RegExp"; "console"].

(** Where a free identifier of the code is found. *)
Inductive Binding : Type :=
| Injected (identifier : string)
| HostGlobal (identifier : string)
| Unbound.

(** A function made by [new Function] closes over the global scope only:
    an identifier of its body is one of its parameters or else a global of
    the page; the wrappers of lines 92-98 bind nothing the code can name
    but [result]. *)
Definition resolve (hostGlobals : list string) (identifier : string) : Binding :=
  if bool_decide (identifier ∈ sandboxGlobals) then Injected identifier
  else if bool_decide (identifier ∈ hostGlobals) then HostGlobal identifier
  else Unbound.

(** Some globals of a browser page. *)
Definition pageGlobals : list string :=
  ["window"; "document"; "globalThis"; "fetch"; "localStorage"].

(** ** Saved settings: localStorage, lines 506-537 *)

(** The storage key of a setting. *)
Definition storageKey (key : string) : string := "llm_agent_" +:+ key.

Definition saveToLocalStorage (key value : string) (shouldSave : bool)
    (store : gmap string string) : gmap string string :=
  if shouldSave && negb (String.eqb value "")
  then <[storageKey key := value]> store
  else delete (storageKey key) store.

(** [localStorage.getItem(...) || ''] *)
Definition loadFromLocalStorage (key : string) (store : gmap string string) : string :=
  match truthy (store !! storageKey key) with
  | Some value => value
  | None => ""
  end.

(** The keys [clearAllSavedKeys] removes, and its effect on localStorage
    (lines 520-521); the rest of that function writes page inputs. *)
Definition savedKeys : list string :=
  ["api_key"; "base_url"; "model"; "google_cse_key"; "google_cse_cx"; "aipipe_key"].

Definition removeSavedKeys (store : gmap string string) : gmap string string :=
  foldl (fun s key => delete (storageKey key) s) store savedKeys.

(** [s.replace(from, to)] with one-character texts: the first occurrence
    only. *)
Fixpoint replace_first (from to : ascii) (s : string) : string :=
  match s with
  | EmptyString => EmptyString
  | String c rest =>
      if Ascii.eqb c from then String to rest
      else String c (replace_first from to rest)
  end.

(** [param.key.replace('-', '_')], lines 346 and 401: the key under which
    the sidebar loads and saves a tool parameter. *)
Definition paramStorageKey (key : string) : string :=
  replace_first "-"%char "_"%char key.

(** The keys of the tool parameters of [demos] in config.js. *)
Definition demoParamKeys : list string :=
  ["google-cse-key"; "google-cse-cx"; "aipipe-key"].

(** ** Clearing the conversation, lines 490-504 *)

(** [confirmed] is the answer to the [confirm] dialog. *)
Definition clearConversation (confirmed : bool) (st : State) : State :=
  match messages st with
  | [] => st
  | _ =>
      if confirmed
      then {| messages := []; isProcessing := isProcessing st; trace := trace st |}
      else st
  end.

(** A conversation is empty or starts with its only system turn. *)
Definition well_started (ms : list Msg) : Prop :=
  ms = [] \/ exists rest, ms = systemTurn :: rest
                         /\ Forall (fun m => role m <> "system") rest.

(** ** The card of a turn, lines 275-317 of [renderSteps] *)

(** [message.name || message.role] *)
Definition card_role (m : Msg) : string :=
  match truthy (name m) with
  | Some n => n
  | None => role m
  end.

Inductive Badge : Type :=
| ToolCallBadge
| ToolResultBadge
| NoBadge.

Definition card_badge (m : Msg) : Badge :=
  if String.eqb (card_role m) "tool-call" then ToolCallBadge
  else if String.eqb (card_role m) "tool" then ToolResultBadge
  else NoBadge.

(** The text of the card before it is formatted (lines 279-289). *)
Definition card_text (m : Msg) : string :=
  let content := match truthy (content m) with Some c => c | None => "" end in
  let content :=
    match tool_calls m with
    | Some calls =>
        if String.eqb (role m) "assistant" && String.eqb content ""
        then "*Preparing to use " +:+ dec (length calls) +:+ " tool(s)...*"
        else content
    | None => content
    end in
  if String.eqb content "" && String.eqb (role m) "assistant"
  then "*Processing...*"
  else content.

(** ** What the services answer, lines 135-180 and 201-232 *)

(** A response of [fetch]: [ok], [status], [statusText], the body as
    [text()] gives it and as [json()] gives it (a value, or the message of
    the error it rejects with). *)
Record Response : Type := {
  res_ok : bool;
  res_status : nat;
  res_statusText : string;
  res_text : string;
  res_json : JSON + string
}.

Inductive FetchOutcome : Type :=
| NetworkError (message : string)
| Responded (response : Response).

(** The TypeErrors the handlers can run into. *)
Inductive Fault : Type :=
| NullProperty (key : string)     (* a property of null is read *)
| NotCallable (method : string).  (* a value that is not a function is called *)

(** More built-ins: [parseInt] of a parsed value ([None] is NaN) and the
    message the engine gives a TypeError. *)
Record Engine : Type := {
  parseInt : JSON -> option Z;
  fault_message : Fault -> string
}.

(** Truthiness of a value, [None] being undefined. *)
Definition truthyJ (v : option JSON) : bool :=
  match v with
  | None | Some JNull | Some (JBool false) | Some (JNum 0) | Some (JStr "") => false
  | Some _ => true
  end.

(** An object literal as [JSON.stringify] writes it: a property whose value
    is undefined is left out. *)
Definition obj (fields : list (string * option JSON)) : JSON :=
  JObj (omap (fun kv => pair (fst kv) <$> snd kv) fields).

(** What a try block ends with: a returned payload (written with
    indentation or without) or a thrown error. *)
Inductive Tried : Type :=
| Payload (indented : bool) (payload : JSON)
| Raised (message : string).

(** [data.searchInformation?.key] for a [data] that is not null. *)
Definition searchInformation (key : string) (data : JSON) : option JSON :=
  match prop "searchInformation" data with
  | None | Some JNull => None
  | Some info => prop key info
  end.

(** [items.length === 0] for a truthy [items]. *)
Definition length_is_zero (items : JSON) : bool :=
  match items with
  | JArr [] => true
  | JObj fields =>
      match assoc "length" fields with
      | Some (JNum 0) => true
      | _ => false
      end
  | _ => false
  end.

(** The callback of [map] at lines 156-163.  [item.link] of a string is a
    method, which [JSON.stringify] leaves out like undefined. *)
Definition search_item (index : nat) (item : JSON) : JSON + Fault :=
  match item with
  | JNull => inr (NullProperty "title")
  | _ =>
      inl (obj [("rank", Some (JNum (Z.of_nat (index + 1))));
                ("title", prop "title" item);
                ("link", prop "link" item);
                ("snippet", prop "snippet" item);
                ("displayLink", prop "displayLink" item);
                ("formattedUrl", prop "formattedUrl" item)])
  end.

Fixpoint search_items (index : nat) (items : list JSON) : list JSON + Fault :=
  match items with
  | [] => inl []
  | item :: rest =>
      match search_item index item with
      | inr fault => inr fault
      | inl first =>
          match search_items (S index) rest with
          | inr fault => inr fault
          | inl others => inl (first :: others)
          end
      end
  end.

Section Services.

Context (H : Host) (E : Engine).

(** [parseInt(data.searchInformation?.totalResults || 0)]; NaN is written
    as null. *)
Definition totalResults (data : JSON) : JSON :=
  match searchInformation "totalResults" data with
  | Some v =>
      if truthyJ (Some v)
      then match parseInt E v with Some z => JNum z | None => JNull end
      else JNum 0
  | None => JNum 0
  end.

(** The try block of [google_search], lines 136-171, given what [fetch]
    ends with. *)
Definition search_try (query : option JSON) (reply : FetchOutcome) : Tried :=
  match reply with
  | NetworkError message => Raised message
  | Responded response =>
      if negb (res_ok response) then
        let errorData := match res_json response with
                         | inl v => v
                         | inr _ => JObj []
                         end in
        match errorData with
        | JNull => Raised (fault_message E (NullProperty "error"))
        | _ =>
            let detail := match prop "error" errorData with
                          | None | Some JNull => None
                          | Some e => prop "message" e
                          end in
            Raised ("Google API error: " +:+ dec (res_status response) +:+ " - "
                    +:+ (if truthyJ detail then interpolate H detail
                         else res_statusText response))
        end
      else
        match res_json response with
        | inr message => Raised message
        | inl JNull => Raised (fault_message E (NullProperty "items"))
        | inl data =>
            let items := prop "items" data in
            if negb (truthyJ items)
               || match items with Some v => length_is_zero v | None => false end
            then
              Payload false
                (obj [("success", Some (JBool true));
                      ("query", query);
                      ("totalResults", Some (JNum 0));
                      ("message", Some (JStr "No search results found for this query."));
                      ("searchTime", searchInformation "searchTime" data)])
            else
              match items with
              | Some (JArr found) =>
                  match search_items 0 (take 5 found) with
                  | inl results =>
                      Payload true
                        (obj [("success", Some (JBool true));
                              ("query", query);
                              ("totalResults", Some (totalResults data));
                              ("searchTime", searchInformation "searchTime" data);
                              ("results", Some (JArr results))])
                  | inr fault => Raised (fault_message E fault)
                  end
              | Some (JStr _) => Raised (fault_message E (NotCallable "map"))
              | _ => Raised (fault_message E (NotCallable "slice"))
              end
        end
  end.

(** The object [google_search] writes once the configuration is there: the
    payload of the try block, or the one of the catch block of lines
    173-180.  [now] is [new Date().toISOString()]. *)
Definition search_payload (now : string) (query : option JSON) (reply : FetchOutcome)
  : JSON :=
  match search_try query reply with
  | Payload _ payload => payload
  | Raised message =>
      obj [("success", Some (JBool false));
           ("error", Some (JStr message));
           ("query", query);
           ("timestamp", Some (JStr now))]
  end.

(** The text [google_search] returns. *)
Definition search_text (now : string) (query : option JSON) (reply : FetchOutcome)
  : string :=
  match search_try query reply with
  | Payload true payload => JSON_stringify_2 H payload
  | _ => JSON_stringify H (search_payload now query reply)
  end.

(** The request of [aipipe_workflow], lines 187-206. *)
Definition workflow_headers (apiKey : option string) : list (string * string) :=
  [("Content-Type", "application/json"); ("User-Agent", "LLM-Agent-POC/1.0")]
  ++ match truthy apiKey with
     | Some key => [("Authorization", "Bearer " +:+ key)]
     | None => []
     end.

Record Request : Type := {
  req_url : string;
  req_method : string;
  req_headers : list (string * string);
  req_body : option string
}.

Definition workflow_request (apiKey : option string) (workflow payload : option JSON)
  : Request :=
  {| req_url := "https://aipipe.org/api/" +:+ interpolate H workflow;
     req_method := "POST";
     req_headers := workflow_headers apiKey;
     req_body := JSON_stringify H <$> payload |}.

(** The try block of [aipipe_workflow], lines 202-221. *)
Definition workflow_try (now : string) (workflow payload : option JSON)
    (reply : FetchOutcome) : Tried :=
  match reply with
  | NetworkError message => Raised message
  | Responded response =>
      if negb (res_ok response) then
        Raised ("AI Pipe API error: " +:+ dec (res_status response) +:+ " "
                +:+ res_statusText response +:+ " - " +:+ res_text response)
      else
        match res_json response with
        | inr message => Raised message
        | inl result =>
            Payload true
              (obj [("success", Some (JBool true));
                    ("workflow", workflow);
                    ("payload", payload);
                    ("result", Some result);
                    ("timestamp", Some (JStr now))])
        end
  end.

Definition keySuggestion : string :=
  "Check if the workflow name is correct and the payload format is valid. Available workflows might include: 'summarize', 'sentiment', 'expand-content'.".

Definition noKeySuggestion : string :=
  "Consider adding an AI Pipe API key for authenticated access.".

(** The object [aipipe_workflow] writes: the payload of the try block or
    the one of the catch block of lines 223-232. *)
Definition workflow_payload (now : string) (apiKey : option string)
    (workflow payload : option JSON) (reply : FetchOutcome) : JSON :=
  match workflow_try now workflow payload reply with
  | Payload _ written => written
  | Raised message =>
      obj [("success", Some (JBool false));
           ("workflow", workflow);
           ("payload", payload);
           ("error", Some (JStr message));
           ("timestamp", Some (JStr now));
           ("suggestion",
            Some (JStr (match truthy apiKey with
                        | Some _ => keySuggestion
                        | None => noKeySuggestion
                        end)))]
  end.

End Services.

(** An event a dispatch of [calls] (numbered from [index]) may add: no
    model call, and a handler start only for a request of the turn, with a
    name the switch knows and the parsed arguments of that request. *)
Definition dispatch_event (H : Host) (index : nat) (calls : list ToolCall) (e : Event)
  : Prop :=
  match e with
  | EvInvoke at_index functionName args =>
      known functionName = true
      /\ exists j tc, at_index = index + j /\ calls !! j = Some tc
                      /\ tc_name tc = functionName
                      /\ JSON_parse H (tc_arguments tc) = Some args
  | EvModelCall _ => False
  | _ => True
  end.

(** A sample engine. *)
Definition sampleEngine : Engine :=
  {| parseInt := fun v =>
       match v with
       | JNum z => Some z
       | _ => None
       end;
     fault_message := fun fault =>
       match fault with
       | NullProperty key => "Cannot read properties of null (reading '" +:+ key +:+ "')"
       | NotCallable method => method +:+ " is not a function"
       end |}.

(** An answer of the search service with six items, the third without a
    title. *)
Definition sampleItems : list JSON :=
  [JObj [("title", JStr "one"); ("link", JStr "https://one.example")];
   JObj [("title", JStr "two")];
   JObj [("snippet", JStr "three")];
   JObj [("title", JStr "four")];
   JObj [("title", JStr "five")];
   JObj [("title", JStr "six")]].

Definition sampleResponse : Response :=
  {| res_ok := true; res_status := 200; res_statusText := "OK"; res_text := "";
     res_json := inl (JObj [("items", JArr sampleItems)]) |}.

(** * Properties *)

Section Properties.

Context (H : Host) (W : World) (doc : Document).

(** ** One callback *)

Lemma begin_call_task i total index tc st :
  (begin_call H W doc i total index tc st).1 = begin_task H W doc i index tc.
Proof.
  unfold begin_call, begin_task.
  destruct (JSON_parse H (tc_arguments tc)) as [args|]; [|done].
  by destruct (call_handler H W doc (i, index) (tc_name tc) args).
Qed.

Lemma fold_fetch_messages urls st :
  messages (fold_left (fun s url => log (EvFetch url) s) urls st) = messages st.
Proof. revert st. induction urls as [|u urls IH]; intros st; [done|]. simpl. by rewrite IH. Qed.

Lemma fold_fetch_trace urls st :
  trace (fold_left (fun s url => log (EvFetch url) s) urls st)
  = trace st ++ map EvFetch urls.
Proof.
  revert st. induction urls as [|u urls IH]; intros st; simpl.
  - by rewrite app_nil_r.
  - rewrite IH. simpl. by rewrite <- app_assoc.
Qed.

Lemma begin_call_messages i total index tc st :
  messages (begin_call H W doc i total index tc st).2
  = messages st ++ begin_msgs H W doc i total index tc.
Proof.
  unfold begin_call, begin_msgs.
  destruct (JSON_parse H (tc_arguments tc)) as [args|]; simpl.
  - destruct (call_handler H W doc (i, index) (tc_name tc) args) as [run|]; simpl.
    + by rewrite fold_fetch_messages.
    + by rewrite <- app_assoc.
  - by rewrite app_nil_r.
Qed.

Lemma begin_call_trace i total index tc st :
  exists tr, trace (begin_call H W doc i total index tc st).2 = trace st ++ tr
             /\ Forall quiet tr.
Proof.
  unfold begin_call.
  destruct (JSON_parse H (tc_arguments tc)) as [args|]; simpl.
  - destruct (call_handler H W doc (i, index) (tc_name tc) args) as [run|]; simpl.
    + rewrite fold_fetch_trace. simpl. eexists. split.
      * rewrite <- !app_assoc. reflexivity.
      * simpl. repeat constructor. apply Forall_forall. intros e He.
        apply list_elem_of_In, in_map_iff in He as (u & <- & _). done.
    + eexists. split; [rewrite <- app_assoc; reflexivity|]. by repeat constructor.
  - exists []. by rewrite app_nil_r.
Qed.

(** ** The synchronous part: [toolCalls.map] *)

Lemma begin_calls_tasks i total index calls st :
  (begin_calls H W doc i total index calls st).1 = begin_tasks H W doc i index calls.
Proof.
  revert index st. induction calls as [|tc rest IH]; intros index st; [done|].
  simpl.
  pose proof (begin_call_task i total index tc st) as Ht.
  destruct (begin_call H W doc i total index tc st) as [t st1]. simpl in Ht.
  specialize (IH (S index) st1).
  destruct (begin_calls H W doc i total (S index) rest st1) as [ts st2].
  simpl in *. by subst.
Qed.

Lemma begin_calls_messages i total index calls st :
  messages (begin_calls H W doc i total index calls st).2
  = messages st ++ begins_msgs H W doc i total index calls.
Proof.
  revert index st. induction calls as [|tc rest IH]; intros index st; simpl.
  - by rewrite app_nil_r.
  - pose proof (begin_call_messages i total index tc st) as Hm.
    destruct (begin_call H W doc i total index tc st) as [t st1]. simpl in Hm.
    specialize (IH (S index) st1).
    destruct (begin_calls H W doc i total (S index) rest st1) as [ts st2].
    simpl in *. rewrite IH, Hm. by rewrite <- app_assoc.
Qed.

Lemma begin_calls_trace i total index calls st :
  exists tr, trace (begin_calls H W doc i total index calls st).2 = trace st ++ tr
             /\ Forall quiet tr.
Proof.
  revert index st. induction calls as [|tc rest IH]; intros index st; simpl.
  - exists []. by rewrite app_nil_r.
  - destruct (begin_call_trace i total index tc st) as (tr1 & E1 & Q1).
    destruct (begin_call H W doc i total index tc st) as [t st1]. simpl in E1.
    destruct (IH (S index) st1) as (tr2 & E2 & Q2).
    destruct (begin_calls H W doc i total (S index) rest st1) as [ts st2].
    simpl in *. exists (tr1 ++ tr2). split.
    + by rewrite E2, E1, <- app_assoc.
    + by apply Forall_app.
Qed.

Lemma begin_tasks_length i index calls :
  length (begin_tasks H W doc i index calls) = length calls.
Proof. revert index. induction calls; intros; simpl; auto. Qed.

(** ** The handlers settle *)

Lemma settle_task_idem t : settle_task H (settle_task H t) = settle_task H t.
Proof. by destruct t. Qed.

Lemma resume_tasks k p : (resume H k p).1 = alter (settle_task H) k p.1.
Proof.
  unfold resume. apply list_eq. intros j.
  destruct (decide (k = j)) as [->|Hne].
  - rewrite list_lookup_alter_eq.
    destruct (p.1 !! j) as [t|] eqn:E.
    + destruct t as [tc how| |]; simpl; rewrite ?E; try done.
      apply list_lookup_insert_eq. by eapply lookup_lt_Some.
    + simpl. by rewrite E.
  - rewrite list_lookup_alter_ne by done.
    destruct (p.1 !! k) as [[tc how| |]|]; simpl; try done.
    by rewrite list_lookup_insert_ne.
Qed.

Lemma resume_messages k p :
  messages (resume H k p).2 = messages p.2 ++ display_of H p.1 k.
Proof.
  unfold resume, display_of.
  destruct (p.1 !! k) as [[tc how| |]|]; simpl; by rewrite ?app_nil_r.
Qed.

Lemma resume_trace k p :
  exists tr, trace (resume H k p).2 = trace p.2 ++ tr /\ Forall quiet tr.
Proof.
  unfold resume.
  destruct (p.1 !! k) as [[tc how| |]|]; simpl;
    try (exists []; by rewrite app_nil_r).
  eexists. split; [reflexivity|]. by repeat constructor.
Qed.

Lemma settle_tasks order p :
  (settle H order p).1 = fold_left (fun ts k => alter (settle_task H) k ts) order p.1.
Proof.
  unfold settle. revert p. induction order as [|k rest IH]; intros p; [done|].
  simpl. rewrite IH. by rewrite resume_tasks.
Qed.

Lemma settle_messages order p :
  messages (settle H order p).2 = messages p.2 ++ settle_msgs H order p.1.
Proof.
  unfold settle. revert p. induction order as [|k rest IH]; intros p; simpl.
  - by rewrite app_nil_r.
  - rewrite IH, resume_messages, resume_tasks. by rewrite <- app_assoc.
Qed.

Lemma settle_trace order p :
  exists tr, trace (settle H order p).2 = trace p.2 ++ tr /\ Forall quiet tr.
Proof.
  unfold settle. revert p. induction order as [|k rest IH]; intros p; simpl.
  - exists []. by rewrite app_nil_r.
  - destruct (IH (resume H k p)) as (tr2 & E2 & Q2).
    destruct (resume_trace k p) as (tr1 & E1 & Q1).
    exists (tr1 ++ tr2). split.
    + by rewrite E2, E1, <- app_assoc.
    + by apply Forall_app.
Qed.

Lemma fold_alter_lookup order (tasks : list Task) j :
  fold_left (fun ts k => alter (settle_task H) k ts) order tasks !! j
  = if decide (j ∈ order) then settle_task H <$> tasks !! j else tasks !! j.
Proof.
  revert tasks. induction order as [|k rest IH]; intros tasks; cbn [fold_left].
  - rewrite decide_False; [done|]. apply not_elem_of_nil.
  - rewrite IH.
    destruct (decide (k = j)) as [->|Hne].
    + rewrite list_lookup_alter_eq.
      rewrite (decide_True (P := j ∈ j :: rest)) by left.
      case_decide; [|done].
      destruct (tasks !! j) as [t|]; simpl; [|done]. by rewrite settle_task_idem.
    + rewrite list_lookup_alter_ne by done.
      destruct (decide (j ∈ rest)) as [Hin|Hout].
      * by rewrite decide_True by (by right).
      * rewrite decide_False; [done|].
        intros [->|?]%elem_of_cons; done.
Qed.

Lemma settle_everyone order (tasks : list Task) :
  (forall j, j < length tasks -> j ∈ order) ->
  fold_left (fun ts k => alter (settle_task H) k ts) order tasks = settle_task H <$> tasks.
Proof.
  intros Hall. apply list_eq. intros j.
  rewrite fold_alter_lookup, list_lookup_fmap.
  case_decide as Hin; [done|].
  destruct (tasks !! j) as [t|] eqn:E; [|done].
  exfalso. apply Hin, Hall. by eapply lookup_lt_Some.
Qed.

Lemma order_covers (order : list nat) n j : j < n -> j ∈ order ++ seq 0 n.
Proof. intros Hj. apply elem_of_app. right. apply elem_of_seq. lia. Qed.

Lemma settled_results i index calls :
  omap fulfilled (settle_task H <$> begin_tasks H W doc i index calls)
  = wire_results H W doc i index calls.
Proof.
  revert index. induction calls as [|tc rest IH]; intros index; [done|].
  simpl. unfold begin_task, outcome.
  destruct (JSON_parse H (tc_arguments tc)) as [args|]; simpl.
  - destruct (call_handler H W doc (i, index) (tc_name tc) args) as [run|];
      simpl; by rewrite IH.
  - apply IH.
Qed.

(** ** One dispatch *)

Lemma dispatch_tasks order i calls st :
  (settle H (order ++ seq 0 (length calls))
     (begin_calls H W doc i (length calls) 0 calls st)).1
  = settle_task H <$> begin_tasks H W doc i 0 calls.
Proof.
  rewrite settle_tasks, begin_calls_tasks.
  apply settle_everyone. intros j Hj.
  apply order_covers. by rewrite begin_tasks_length in Hj.
Qed.

Lemma dispatch_messages order i calls st :
  messages (dispatch H W doc order i calls st)
  = messages st ++ display_part H W doc order i calls
    ++ wire_results H W doc i 0 calls.
Proof.
  unfold dispatch, display_part.
  rewrite dispatch_tasks, settled_results.
  assert (forall st2 n, messages (if (0 <? n)%nat then log (EvWarn n) st2 else st2)
                        = messages st2) as Hlog.
  { intros st2 n. by destruct (0 <? n)%nat. }
  rewrite Hlog. simpl.
  rewrite settle_messages, begin_calls_messages, begin_calls_tasks.
  by rewrite <- !app_assoc.
Qed.

Lemma dispatch_trace order i calls st :
  exists tr, trace (dispatch H W doc order i calls st) = trace st ++ tr
             /\ Forall quiet tr.
Proof.
  unfold dispatch.
  destruct (settle_trace (order ++ seq 0 (length calls))
              (begin_calls H W doc i (length calls) 0 calls st)) as (tr2 & E2 & Q2).
  destruct (begin_calls_trace i (length calls) 0 calls st) as (tr1 & E1 & Q1).
  cbv zeta.
  match goal with
  | |- context [if ?b then _ else _] => destruct b
  end; simpl; rewrite E2, E1.
  - eexists. split; [rewrite <- !app_assoc; reflexivity|].
    repeat apply Forall_app_2; try done. by repeat constructor.
  - eexists. split; [rewrite <- !app_assoc; reflexivity|].
    by apply Forall_app_2.
Qed.

(** ** What kind of turns a dispatch appends *)

Lemma filter_all {A} (P : A -> bool) l :
  Forall (fun x => P x = true) l -> List.filter P l = l.
Proof. induction 1 as [|x l Hx _ IH]; simpl; [done|]. by rewrite Hx, IH. Qed.

Lemma filter_none {A} (P : A -> bool) l :
  Forall (fun x => P x = false) l -> List.filter P l = [].
Proof. induction 1 as [|x l Hx _ IH]; simpl; [done|]. by rewrite Hx. Qed.

Lemma begins_msgs_page i total index calls :
  Forall page_turn (begins_msgs H W doc i total index calls).
Proof.
  revert index. induction calls as [|tc rest IH]; intros index; simpl; [constructor|].
  apply Forall_app_2; [|apply IH].
  unfold begin_msgs.
  destruct (JSON_parse H (tc_arguments tc)) as [args|]; [|constructor].
  destruct (call_handler H W doc (i, index) (tc_name tc) args);
    repeat constructor.
Qed.

Lemma settle_msgs_page order tasks :
  Forall page_turn (settle_msgs H order tasks).
Proof.
  revert tasks. induction order as [|k rest IH]; intros tasks; simpl; [constructor|].
  apply Forall_app_2; [|apply IH].
  unfold display_of. destruct (tasks !! k) as [[tc how| |]|]; repeat constructor.
Qed.

Lemma display_part_page order i calls :
  Forall page_turn (display_part H W doc order i calls).
Proof. apply Forall_app_2; [apply begins_msgs_page|apply settle_msgs_page]. Qed.

Lemma wire_results_wire i index calls :
  Forall wire_turn (wire_results H W doc i index calls).
Proof.
  revert index. induction calls as [|tc rest IH]; intros index; simpl; [constructor|].
  destruct (outcome H W doc i index tc); [|apply IH].
  constructor; [|apply IH]. by repeat split.
Qed.

Lemma wireView_page l : Forall page_turn l -> wireView l = [].
Proof.
  intros Hl. apply filter_none. eapply Forall_impl; [exact Hl|].
  intros m (Hd & _). simpl. by rewrite Hd.
Qed.

Lemma wireView_wire l : Forall wire_turn l -> wireView l = l.
Proof.
  intros Hl. apply filter_all. eapply Forall_impl; [exact Hl|].
  intros m (Hd & _). simpl. by rewrite Hd.
Qed.

Lemma wireView_app l1 l2 : wireView (l1 ++ l2) = wireView l1 ++ wireView l2.
Proof. apply List.filter_app. Qed.

(** The ids and the number of the tool results for the model. *)
Lemma wire_results_ids i index calls :
  tool_call_id <$> wire_results H W doc i index calls
  = (fun tc => Some (tc_id tc)) <$> List.filter (parses H) calls.
Proof.
  revert index. induction calls as [|tc rest IH]; intros index; [done|].
  simpl. unfold outcome, parses.
  destruct (JSON_parse H (tc_arguments tc)); simpl; by rewrite IH.
Qed.


(** ** Counting the page copies of the results *)






Lemma appended_app st st' l : messages st' = messages st ++ l -> appended st st' = l.
Proof. intros E. unfold appended. rewrite E. apply drop_app_length. Qed.

Lemma dispatch_appended order i calls st :
  appended st (dispatch H W doc order i calls st)
  = display_part H W doc order i calls ++ wire_results H W doc i 0 calls.
Proof. apply appended_app, dispatch_messages. Qed.



(** ** The turns of one request *)

Lemma begins_msgs_app i total index pre post :
  begins_msgs H W doc i total index (pre ++ post)
  = begins_msgs H W doc i total index pre
    ++ begins_msgs H W doc i total (index + length pre) post.
Proof.
  revert index. induction pre as [|tc pre IH]; intros index; simpl.
  - by rewrite Nat.add_0_r.
  - rewrite IH, <- app_assoc. do 3 f_equal. lia.
Qed.

Lemma begin_tasks_lookup i index calls j tc :
  calls !! j = Some tc ->
  begin_tasks H W doc i index calls !! j = Some (begin_task H W doc i (index + j) tc).
Proof.
  revert index j. induction calls as [|tc' calls IH]; intros index j Hj; [done|].
  destruct j as [|j]; simpl in *.
  - injection Hj as ->. by rewrite Nat.add_0_r.
  - rewrite (IH (S index) j Hj). do 2 f_equal. lia.
Qed.

Lemma settle_msgs_elem order (tasks : list Task) j tc how :
  tasks !! j = Some (Awaiting tc how) ->
  j ∈ order ->
  displayResult j tc (resultText H how) ∈ settle_msgs H order tasks.
Proof.
  revert tasks. induction order as [|k rest IH]; intros tasks Hj Hin.
  - by apply elem_of_nil in Hin.
  - simpl. apply elem_of_app.
    destruct (decide (k = j)) as [->|Hne].
    + left. unfold display_of. rewrite Hj. by left.
    + right. apply IH.
      * by rewrite list_lookup_alter_ne.
      * apply elem_of_cons in Hin as [->|Hin]; done.
Qed.

Lemma wire_results_elem i index calls j tc text :
  calls !! j = Some tc ->
  outcome H W doc i (index + j) tc = Some text ->
  toolResultMessage tc text ∈ wire_results H W doc i index calls.
Proof.
  revert index j. induction calls as [|tc' calls IH]; intros index j Hj Ho; [done|].
  destruct j as [|j]; simpl in *.
  - injection Hj as ->. rewrite Nat.add_0_r in Ho. rewrite Ho. by left.
  - assert (toolResultMessage tc text ∈ wire_results H W doc i (S index) calls) as Hin.
    { apply (IH (S index) j Hj). by replace (S index + j) with (index + S j) by lia. }
    destruct (outcome H W doc i index tc'); [by right|done].
Qed.

Lemma begin_calls_app i total index pre post st :
  (begin_calls H W doc i total index (pre ++ post) st).2
  = (begin_calls H W doc i total (index + length pre) post
       (begin_calls H W doc i total index pre st).2).2.
Proof.
  revert index st. induction pre as [|tc pre IH]; intros index st; simpl.
  - by rewrite Nat.add_0_r.
  - destruct (begin_call H W doc i total index tc st) as [t st1].
    specialize (IH (S index) st1).
    destruct (begin_calls H W doc i total (S index) (pre ++ post) st1) as [ts st2].
    destruct (begin_calls H W doc i total (S index) pre st1) as [ts' st2'].
    simpl in *. rewrite IH. do 3 f_equal. lia.
Qed.

Lemma begin_calls_cons i total index tc post st :
  (begin_calls H W doc i total index (tc :: post) st).2
  = (begin_calls H W doc i total (S index) post
       (begin_call H W doc i total index tc st).2).2.
Proof.
  cbn [begin_calls]. destruct (begin_call H W doc i total index tc st) as [t st1].
  cbn [snd]. by destruct (begin_calls H W doc i total (S index) post st1).
Qed.

Lemma begin_call_known_trace i total index tc st args run :
  JSON_parse H (tc_arguments tc) = Some args ->
  call_handler H W doc (i, index) (tc_name tc) args = Some run ->
  trace (begin_call H W doc i total index tc st).2
  = trace st
    ++ [EvRender (messages st ++ [displayMessage H total index (tc_name tc) args]);
        EvInvoke index (tc_name tc) args]
    ++ map EvFetch (fetched run).
Proof.
  intros Hp Hc. unfold begin_call. rewrite Hp, Hc. simpl.
  rewrite fold_fetch_trace. simpl. by rewrite <- !app_assoc.
Qed.

Lemma dispatch_trace_after_begin order i calls st :
  exists tr, trace (dispatch H W doc order i calls st)
             = trace (begin_calls H W doc i (length calls) 0 calls st).2 ++ tr.
Proof.
  unfold dispatch. cbv zeta.
  destruct (settle_trace (order ++ seq 0 (length calls))
              (begin_calls H W doc i (length calls) 0 calls st)) as (tr2 & E2 & _).
  match goal with
  | |- context [if ?b then _ else _] => destruct b
  end; simpl; rewrite E2.
  - eexists. by rewrite <- app_assoc.
  - by eexists.
Qed.

(** Every request whose arguments parse gets its announcement, then the
    page copy of its result, then its result for the model; when it has a
    handler, the page is rendered with the announcement last just before
    the handler starts. *)
Lemma request_turns order i calls st j tc args :
  calls !! j = Some tc ->
  JSON_parse H (tc_arguments tc) = Some args ->
  exists text l1 l2 l3,
    outcome H W doc i j tc = Some text
    /\ appended st (dispatch H W doc order i calls st)
       = l1 ++ [displayMessage H (length calls) j (tc_name tc) args] ++ l2
         ++ [displayResult j tc text] ++ l3
    /\ toolResultMessage tc text ∈ l3
    /\ forall run,
         call_handler H W doc (i, j) (tc_name tc) args = Some run ->
         exists t1 t2,
           trace (dispatch H W doc order i calls st)
           = t1 ++ [EvRender (messages st ++ l1
                              ++ [displayMessage H (length calls) j (tc_name tc) args]);
                    EvInvoke j (tc_name tc) args] ++ t2.
Proof.
  intros Hj Hp.
  pose proof (lookup_lt_Some _ _ _ Hj) as Hlt.
  pose proof (begin_tasks_lookup i 0 calls j tc Hj) as Ht. simpl in Ht.
  assert (forall text, outcome H W doc i j tc = Some text ->
            toolResultMessage tc text ∈ wire_results H W doc i 0 calls) as Hwire.
  { intros text Ho. by eapply wire_results_elem. }
  destruct (list_elem_of_split_length _ _ _ Hj) as (pre & post & -> & ->).
  set (calls := pre ++ tc :: post) in *. set (total := length calls) in *.
  assert (begins_msgs H W doc i total 0 calls
          = begins_msgs H W doc i total 0 pre
            ++ begin_msgs H W doc i total (length pre) tc
            ++ begins_msgs H W doc i total (S (length pre)) post) as Hb.
  { unfold calls. by rewrite begins_msgs_app. }
  rewrite dispatch_appended. unfold display_part. fold total. rewrite Hb.
  unfold outcome in *. unfold begin_msgs. rewrite Hp in *.
  unfold begin_task in Ht. rewrite Hp in Ht.
  destruct (call_handler H W doc (i, length pre) (tc_name tc) args) as [run|] eqn:Hc.
  - (* a handler is awaited: the copy comes when it settles *)
    pose proof (settle_msgs_elem (order ++ seq 0 total) _ _ tc (completion run) Ht
                  (order_covers order total _ Hlt)) as Hin.
    destruct (list_elem_of_split _ _ Hin) as (s1 & s2 & Hs).
    exists (resultText H (completion run)), (begins_msgs H W doc i total 0 pre),
           (begins_msgs H W doc i total (S (length pre)) post ++ s1),
           (s2 ++ wire_results H W doc i 0 calls).
    split; [reflexivity|]. split.
    { rewrite Hs. rewrite <- !app_assoc. cbn [app]. reflexivity. }
    split.
    { apply elem_of_app. right. apply Hwire. reflexivity. }
    intros run' [= <-].
    destruct (dispatch_trace_after_begin order i calls st) as (tr & Etr).
    rewrite Etr. clear Etr.
    fold total. unfold calls at 1.
    rewrite (begin_calls_app i total 0 pre (tc :: post) st).
    rewrite (begin_calls_cons i total). cbn [Nat.add].
    pose proof (begin_calls_trace i total (S (length pre)) post
                  (begin_call H W doc i total (length pre) tc
                     (begin_calls H W doc i total 0 pre st).2).2) as (tr2 & E2 & _).
    rewrite E2. clear E2.
    rewrite (begin_call_known_trace i total (length pre) tc _ args run Hp Hc).
    rewrite begin_calls_messages.
    rewrite <- !app_assoc. cbn [app].
    eexists _, _. reflexivity.
  - (* no handler: the copy is pushed at once *)
    exists (unknownTool H (tc_name tc)), (begins_msgs H W doc i total 0 pre), [],
           (begins_msgs H W doc i total (S (length pre)) post
            ++ settle_msgs H (order ++ seq 0 total) (begin_tasks H W doc i 0 calls)
            ++ wire_results H W doc i 0 calls).
    split; [reflexivity|]. split.
    { rewrite <- !app_assoc. cbn [app]. reflexivity. }
    split; [|intros run [=]].
    apply elem_of_app. right. apply elem_of_app. right. apply Hwire. reflexivity.
Qed.

(** C8.  Every dispatched request (one whose arguments parse) has its
    announcement appended before its handler is invoked: the page is
    rendered with the announcement as the last turn, and only then does the
    handler start.  In the log the announcement precedes the page copy of
    that request's result, which precedes its result for the model,
    whatever the order in which the handlers settle. *)
Theorem announcement_precedes_result order i calls st j tc args :
  calls !! j = Some tc ->
  JSON_parse H (tc_arguments tc) = Some args ->
  exists text l1 l2 l3,
    outcome H W doc i j tc = Some text
    /\ appended st (dispatch H W doc order i calls st)
       = l1 ++ [displayMessage H (length calls) j (tc_name tc) args] ++ l2
         ++ [displayResult j tc text] ++ l3
    /\ toolResultMessage tc text ∈ l3
    /\ forall run,
         call_handler H W doc (i, j) (tc_name tc) args = Some run ->
         exists t1 t2,
           trace (dispatch H W doc order i calls st)
           = t1 ++ [EvRender (messages st ++ l1
                              ++ [displayMessage H (length calls) j (tc_name tc) args]);
                    EvInvoke j (tc_name tc) args] ++ t2.
Proof. apply request_turns. Qed.

(** ** A request whose arguments do not parse *)




Lemma settle_msgs_index order (tasks : list Task) m :
  m ∈ settle_msgs H order tasks ->
  exists j tc how, tasks !! j = Some (Awaiting tc how)
                   /\ m = displayResult j tc (resultText H how).
Proof.
  revert tasks. induction order as [|k rest IH]; intros tasks Hm; simpl in Hm.
  - by apply elem_of_nil in Hm.
  - apply elem_of_app in Hm as [Hm|Hm].
    + unfold display_of in Hm.
      destruct (tasks !! k) as [[tc how| |]|] eqn:E;
        try (by apply elem_of_nil in Hm).
      apply list_elem_of_singleton in Hm as ->. by exists k, tc, how.
    + destruct (IH _ Hm) as (j & tc & how & Hj & ->).
      exists j, tc, how. split; [|done].
      destruct (decide (k = j)) as [->|Hne].
      * rewrite list_lookup_alter_eq in Hj.
        destruct (tasks !! j) as [[| |]|]; simplify_eq/=.
      * by rewrite list_lookup_alter_ne in Hj.
Qed.




Lemma dispatch_wireView order i calls st :
  wireView (appended st (dispatch H W doc order i calls st))
  = wire_results H W doc i 0 calls.
Proof.
  rewrite dispatch_appended, wireView_app.
  rewrite (wireView_page _ (display_part_page order i calls)).
  apply wireView_wire, wire_results_wire.
Qed.



(** ** The order of the turns of one dispatch *)

Lemma call_handler_known site functionName args :
  known functionName = true ->
  exists run, call_handler H W doc site functionName args = Some run.
Proof.
  unfold known, call_handler. intros Hk.
  destruct (String.eqb functionName "google_search"); [by eexists|].
  destruct (String.eqb functionName "aipipe_workflow"); [by eexists|].
  destruct (String.eqb functionName "execute_javascript"); [by eexists|done].
Qed.

Lemma settle_msgs_app order1 order2 (tasks : list Task) :
  settle_msgs H (order1 ++ order2) tasks
  = settle_msgs H order1 tasks
    ++ settle_msgs H order2
         (fold_left (fun ts k => alter (settle_task H) k ts) order1 tasks).
Proof.
  revert tasks. induction order1 as [|k rest IH]; intros tasks; simpl; [done|].
  by rewrite IH, <- app_assoc.
Qed.

Lemma settle_msgs_idle order (tasks : list Task) :
  settle_msgs H order (settle_task H <$> tasks) = [].
Proof.
  induction order as [|k rest IH]; [done|]. simpl.
  assert (alter (settle_task H) k (settle_task H <$> tasks) = settle_task H <$> tasks)
    as ->.
  { apply list_eq. intros j. destruct (decide (k = j)) as [->|Hne].
    - rewrite list_lookup_alter_eq, list_lookup_fmap.
      destruct (tasks !! j); simpl; [|done]. by rewrite settle_task_idem.
    - by rewrite list_lookup_alter_ne. }
  rewrite IH, app_nil_r. unfold display_of. rewrite list_lookup_fmap.
  by destruct (tasks !! k) as [[| |]|].
Qed.

Lemma settle_msgs_order order (tasks : list Task) :
  NoDup order ->
  (forall k, k ∈ order -> exists tc how, tasks !! k = Some (Awaiting tc how)) ->
  toolCallIndex <$> settle_msgs H order tasks = Some <$> order.
Proof.
  revert tasks. induction order as [|k rest IH]; intros tasks Hnd Hall; [done|].
  apply NoDup_cons in Hnd as [Hk Hnd]. simpl.
  destruct (Hall k) as (tc & how & Ek); [by left|].
  unfold display_of at 1. rewrite Ek. simpl. f_equal.
  apply IH; [done|]. intros k' Hk'.
  destruct (Hall k') as (tc' & how' & Ek'); [by right|].
  exists tc', how'. rewrite list_lookup_alter_ne; [done|]. by intros ->.
Qed.

Lemma settle_msgs_copies order (tasks : list Task) :
  List.filter isDisplayResult (settle_msgs H order tasks) = settle_msgs H order tasks.
Proof.
  apply filter_all, Forall_forall. intros m Hm.
  by destruct (settle_msgs_index _ _ _ Hm) as (j & tc & how & _ & ->).
Qed.

Lemma begins_no_copy i total index calls :
  forallb (fun tc => known (tc_name tc)) calls = true ->
  List.filter isDisplayResult (begins_msgs H W doc i total index calls) = [].
Proof.
  revert index. induction calls as [|tc rest IH]; intros index Hk; [done|].
  simpl in *. apply andb_prop in Hk as [Hk Hrest].
  rewrite List.filter_app, (IH _ Hrest), app_nil_r.
  unfold begin_msgs.
  destruct (JSON_parse H (tc_arguments tc)) as [args|]; [|done].
  by destruct (call_handler_known (i, index) (tc_name tc) args Hk) as (run & ->).
Qed.

Lemma begin_tasks_awaiting i index calls k :
  forallb (parses H) calls = true ->
  forallb (fun tc => known (tc_name tc)) calls = true ->
  k < length calls ->
  exists tc how, begin_tasks H W doc i index calls !! k = Some (Awaiting tc how).
Proof.
  intros Hp Hk Hlt.
  destruct (lookup_lt_is_Some_2 calls k Hlt) as [tc Hc].
  rewrite (begin_tasks_lookup i index calls k tc Hc).
  rewrite forallb_forall in Hp, Hk.
  assert (In tc calls) as Hin.
  { apply list_elem_of_In, list_elem_of_lookup. eauto. }
  specialize (Hp tc Hin). specialize (Hk tc Hin). simpl in Hk.
  unfold begin_task, parses in *.
  destruct (JSON_parse H (tc_arguments tc)) as [args|]; [|done].
  destruct (call_handler_known (i, index + k) (tc_name tc) args Hk) as (run & ->).
  by eexists _, _.
Qed.

Lemma all_parse calls :
  forallb (parses H) calls = true -> List.filter (parses H) calls = calls.
Proof.
  intros Hp. apply filter_all, Forall_forall. intros tc Hin.
  rewrite forallb_forall in Hp. by apply Hp, list_elem_of_In.
Qed.

(** C10.  When the arguments of all requests parse, the tool results for
    the model are appended together after every page-only turn, one per
    request and in request order, whatever the order in which the handlers
    settle; the page copies of the results follow the order of settling. *)
Theorem wire_results_in_request_order i calls st :
  forallb (parses H) calls = true ->
  (forall order,
     let app := appended st (dispatch H W doc order i calls st) in
     app = display_part H W doc order i calls ++ wire_results H W doc i 0 calls
     /\ wireView app = wire_results H W doc i 0 calls
     /\ tool_call_id <$> wire_results H W doc i 0 calls
        = (fun tc => Some (tc_id tc)) <$> calls
     /\ Forall page_turn (display_part H W doc order i calls))
  /\ (forall order,
        forallb (fun tc => known (tc_name tc)) calls = true ->
        order ≡ₚ seq 0 (length calls) ->
        toolCallIndex <$> List.filter isDisplayResult
                            (appended st (dispatch H W doc order i calls st))
        = Some <$> order).
Proof.
  intros Hp. split.
  - intros order. cbv zeta.
    split; [apply dispatch_appended|].
    split; [apply dispatch_wireView|].
    split; [|apply display_part_page].
    by rewrite wire_results_ids, all_parse.
  - intros order Hk Hperm.
    rewrite dispatch_appended. unfold display_part.
    rewrite !List.filter_app, begins_no_copy by done.
    rewrite (filter_none isDisplayResult (wire_results H W doc i 0 calls)).
    2:{ eapply Forall_impl; [apply wire_results_wire|]. by intros m (_ & _ & ? & _). }
    rewrite app_nil_r. simpl.
    rewrite settle_msgs_app, settle_everyone.
    2:{ intros j Hj. rewrite Hperm. apply elem_of_seq.
        rewrite begin_tasks_length in Hj. lia. }
    rewrite settle_msgs_idle, app_nil_r, settle_msgs_copies.
    apply settle_msgs_order.
    + rewrite Hperm. apply NoDup_seq.
    + intros k Hin. rewrite Hperm in Hin. apply elem_of_seq in Hin.
      apply begin_tasks_awaiting; [done|done|lia].
Qed.

(** ** The loop *)

Lemma model_calls_app tr1 tr2 :
  model_calls (tr1 ++ tr2) = model_calls tr1 ++ model_calls tr2.
Proof. apply omap_app. Qed.

Lemma model_calls_quiet tr : Forall quiet tr -> model_calls tr = [].
Proof.
  induction 1 as [|e tr He _ IH]; [done|].
  unfold model_calls in *. simpl. unfold quiet in He. by rewrite He.
Qed.

Lemma dispatch_model_calls order i calls st :
  model_calls (trace (dispatch H W doc order i calls st)) = model_calls (trace st).
Proof.
  destruct (dispatch_trace order i calls st) as (tr & -> & Hq).
  by rewrite model_calls_app, (model_calls_quiet _ Hq), app_nil_r.
Qed.

Lemma dispatch_errors order i calls st :
  errors (dispatch H W doc order i calls st) = errors st.
Proof.
  unfold errors. rewrite dispatch_messages, !List.filter_app.
  rewrite (filter_none isErrorTurn (display_part H W doc order i calls)),
          (filter_none isErrorTurn (wire_results H W doc i 0 calls)).
  - by rewrite !app_nil_r.
  - eapply Forall_impl; [apply wire_results_wire|]. by intros m (_ & _ & _ & ?).
  - eapply Forall_impl; [apply display_part_page|]. by intros m (_ & _ & ?).
Qed.

Lemma calls_since_app st st' cs :
  model_calls (trace st') = model_calls (trace st) ++ cs -> calls_since st st' = cs.
Proof. intros E. unfold calls_since. rewrite E. apply drop_app_length. Qed.

Ltac new_calls :=
  rewrite !model_calls_app; simpl; rewrite ?app_nil_r, <- ?app_assoc; simpl.

(** The model calls of the loop: at most [remaining]; and when the call of
    the last iteration is answered with tool requests, the loop ends at the
    iteration limit. *)
Lemma loop_ceiling remaining i st :
  exists cs,
    model_calls (trace (loop H W doc remaining i st).2) = model_calls (trace st) ++ cs
    /\ length cs <= remaining
    /\ forall r msgs text tcs,
         remaining = S r ->
         cs !! r = Some msgs ->
         llm W (i + r) msgs = Reply text (Some tcs) ->
         (loop H W doc remaining i st).1 = MaxIterations
         /\ last (messages (loop H W doc remaining i st).2)
            = Some (errorTurn maxLoopsText)
         /\ length cs = remaining.
Proof.
  revert i st. induction remaining as [|rem IH]; intros i st.
  - exists []. simpl. rewrite model_calls_app, app_nil_r. simpl.
    split; [by rewrite app_nil_r|]. split; [done|]. intros; lia.
  - cbn [loop]. cbv zeta.
    destruct (llm W i (wireView (messages st))) as [message|status stText eText|text calls]
      eqn:E.
    + exists [wireView (messages st)]. simpl.
      split; [by new_calls|]. split; [lia|].
      intros r msgs text tcs [= <-] Hl Hr.
      destruct rem as [|rem]; [|done]. simpl in Hl. injection Hl as <-.
      rewrite Nat.add_0_r in Hr. congruence.
    + exists [wireView (messages st)]. simpl.
      split; [by new_calls|]. split; [lia|].
      intros r msgs text tcs [= <-] Hl Hr.
      destruct rem as [|rem]; [|done]. simpl in Hl. injection Hl as <-.
      rewrite Nat.add_0_r in Hr. congruence.
    + destruct calls as [toolCalls|].
      * set (stD := dispatch H W doc (settles W i) i toolCalls _).
        destruct (IH (S i) stD) as (cs & Ecs & Hlen & Hlast).
        exists (wireView (messages st) :: cs).
        split.
        { rewrite Ecs. unfold stD. rewrite dispatch_model_calls. simpl.
          by new_calls. }
        split; [simpl; lia|].
        intros r msgs text' tcs [= <-] Hl Hr.
        destruct rem as [|rem].
        -- simpl in Hl. injection Hl as <-.
           destruct cs; [|simpl in Hlen; lia].
           split; [done|]. split; [|done].
           simpl. apply last_snoc.
        -- simpl in Hl.
           destruct (Hlast rem msgs text' tcs eq_refl Hl) as (Ht & Hm & Hc).
           { by replace (S i + rem) with (i + S rem) by lia. }
           split; [done|]. split; [done|]. simpl. by rewrite Hc.
      * exists [wireView (messages st)]. simpl.
        split; [by new_calls|]. split; [lia|].
        intros r msgs text' tcs [= <-] Hl Hr.
        destruct rem as [|rem]; [|done]. simpl in Hl. injection Hl as <-.
        rewrite Nat.add_0_r in Hr. congruence.
Qed.

(** When a model call is answered with a non-success status, the loop
    stops there. *)
Lemma loop_http_error remaining i st :
  exists cs,
    model_calls (trace (loop H W doc remaining i st).2) = model_calls (trace st) ++ cs
    /\ forall k msgs status statusText errorText,
         cs !! k = Some msgs ->
         llm W (i + k) msgs = HttpError status statusText errorText ->
         let st' := (loop H W doc remaining i st).2 in
         (loop H W doc remaining i st).1 = Failed (apiError status statusText errorText)
         /\ length cs = S k
         /\ (exists tr, trace st' = tr ++ [EvModelCall msgs; EvRender (messages st')])
         /\ (exists ms, messages st'
                        = ms ++ [errorTurn (caughtText (apiError status statusText errorText))])
         /\ errors st' = S (errors st).
Proof.
  revert i st. induction remaining as [|rem IH]; intros i st.
  - exists []. simpl. rewrite model_calls_app, app_nil_r. simpl.
    split; [by rewrite app_nil_r|]. intros k; by destruct k.
  - cbn [loop]. cbv zeta.
    destruct (llm W i (wireView (messages st))) as [message|status stText eText|text calls]
      eqn:E.
    + exists [wireView (messages st)]. simpl.
      split; [by new_calls|].
      intros k msgs status statusText errorText Hl Hr.
      destruct k as [|k]; [|done]. simpl in Hl. injection Hl as <-.
      rewrite Nat.add_0_r in Hr. congruence.
    + exists [wireView (messages st)]. simpl.
      split; [by new_calls|].
      intros k msgs status' statusText errorText Hl Hr.
      destruct k as [|k]; [|done]. simpl in Hl. injection Hl as <-.
      rewrite Nat.add_0_r in Hr. rewrite E in Hr. injection Hr as <- <- <-.
      split; [done|]. split; [done|].
      split; [eexists; rewrite <- app_assoc; reflexivity|].
      split; [by eexists|].
      unfold errors. simpl. rewrite List.filter_app, length_app. simpl. lia.
    + destruct calls as [toolCalls|].
      * set (stD := dispatch H W doc (settles W i) i toolCalls _).
        destruct (IH (S i) stD) as (cs & Ecs & Hlast).
        exists (wireView (messages st) :: cs).
        split.
        { rewrite Ecs. unfold stD. rewrite dispatch_model_calls. simpl.
          by new_calls. }
        intros k msgs status statusText errorText Hl Hr.
        destruct k as [|k].
        -- simpl in Hl. injection Hl as <-.
           rewrite Nat.add_0_r in Hr. congruence.
        -- simpl in Hl.
           destruct (Hlast k msgs status statusText errorText Hl) as (Ht & Hc & Htr & Hm & He).
           { by replace (S i + k) with (i + S k) by lia. }
           split; [done|]. split; [simpl; by rewrite Hc|].
           split; [done|]. split; [done|].
           rewrite He. unfold stD. rewrite dispatch_errors.
           unfold errors. simpl. rewrite List.filter_app, length_app. simpl. lia.
      * exists [wireView (messages st)]. simpl.
        split; [by new_calls|].
        intros k msgs status statusText errorText Hl Hr.
        destruct k as [|k]; [|done]. simpl in Hl. injection Hl as <-.
        rewrite Nat.add_0_r in Hr. congruence.
Qed.

(** ** One submission *)

Lemma submit_cases question st :
  submit H W doc question st = (None, st)
  \/ exists st2,
       model_calls (trace st2) = model_calls (trace st)
       /\ errors st2 = errors st
       /\ submit H W doc question st
          = (Some (loop H W doc maxLoops 0 st2).1,
             showTyping false (loop H W doc maxLoops 0 st2).2).
Proof.
  unfold submit.
  destruct (isProcessing st); [by left|].
  destruct (String.eqb question ""); [by left|].
  destruct (truthy (doc !! "apiKeyInput")); [|by left].
  right.
  set (st1 := renderSteps (push (userTurn question) (showTyping true st))).
  set (st2 := if (length (messages st1) =? 1)%nat then unshift systemTurn st1 else st1).
  exists st2. split; [|split].
  - unfold st2. destruct (length (messages st1) =? 1)%nat; simpl;
      rewrite model_calls_app; simpl; by rewrite app_nil_r.
  - unfold st2, errors. destruct (length (messages st1) =? 1)%nat; simpl;
      rewrite List.filter_app; simpl; by rewrite app_nil_r.
  - by destruct (loop H W doc maxLoops 0 st2).
Qed.

Lemma calls_since_self st : calls_since st st = [].
Proof. unfold calls_since. apply drop_all. Qed.

(** C5.  One submission makes at most ten model calls; when the tenth
    call is answered with tool requests, the cycle ends at the iteration
    limit with the error turn that tells so as the last turn, and the
    tenth call is the last one. *)
Theorem iteration_ceiling question st :
  let r := submit H W doc question st in
  let cs := calls_since st r.2 in
  length cs <= 10
  /\ forall msgs text tcs,
       cs !! 9 = Some msgs ->
       llm W 9 msgs = Reply text (Some tcs) ->
       r.1 = Some MaxIterations
       /\ last (messages r.2) = Some (errorTurn maxLoopsText)
       /\ length cs = 10.
Proof.
  cbv zeta. destruct (submit_cases question st) as [->|(st2 & Hc & _ & ->)].
  - simpl. rewrite calls_since_self. split; [simpl; lia|]. intros; done.
  - cbn [fst snd].
    destruct (loop_ceiling maxLoops 0 st2) as (cs & Ecs & Hlen & Hlast).
    rewrite Hc in Ecs.
    assert (calls_since st (showTyping false (loop H W doc maxLoops 0 st2).2) = cs)
      as ->.
    { by apply calls_since_app. }
    split; [exact Hlen|].
    intros msgs text tcs Hl Hr.
    destruct (Hlast 9 msgs text tcs eq_refl Hl Hr) as (Ht & Hm & Hn).
    split; [|split]; [by rewrite <- Ht|exact Hm|exact Hn].
Qed.

(** C6.  When a model call of a submission is answered with a non-success
    status, the cycle fails with the message of that answer: that call is
    the last model call (no retry), nothing happens between it and the
    rendering of the error turn (no tool is dispatched), the error turn is
    the last turn and the only error turn the cycle appends, and the page
    accepts submissions again. *)
Theorem model_error_ends_cycle question st k msgs status statusText errorText :
  let r := submit H W doc question st in
  calls_since st r.2 !! k = Some msgs ->
  llm W k msgs = HttpError status statusText errorText ->
  r.1 = Some (Failed (apiError status statusText errorText))
  /\ length (calls_since st r.2) = S k
  /\ (exists tr, trace r.2 = tr ++ [EvModelCall msgs; EvRender (messages r.2)])
  /\ (exists ms, messages r.2
                 = ms ++ [errorTurn (caughtText (apiError status statusText errorText))])
  /\ errors r.2 = S (errors st)
  /\ isProcessing r.2 = false.
Proof.
  cbv zeta. destruct (submit_cases question st) as [->|(st2 & Hc & He & ->)].
  - simpl. rewrite calls_since_self. intros; done.
  - cbn [fst snd].
    destruct (loop_http_error maxLoops 0 st2) as (cs & Ecs & Hlast).
    rewrite Hc in Ecs.
    assert (calls_since st (showTyping false (loop H W doc maxLoops 0 st2).2) = cs)
      as ->.
    { by apply calls_since_app. }
    intros Hl Hr.
    destruct (Hlast k msgs status statusText errorText Hl Hr)
      as (Ht & Hn & Htr & Hm & Herr).
    split; [by rewrite <- Ht|]. split; [exact Hn|].
    split; [exact Htr|]. split; [exact Hm|].
    split; [|reflexivity].
    change (errors (loop H W doc maxLoops 0 st2).2 = S (errors st)).
    by rewrite Herr, He.
Qed.

(** ** The search tool *)

(** C9.  When the key or the engine id is missing from the page, the
    search tool returns the configuration-required payload, whose
    [configRequired] field is true, and fetches nothing; whatever its
    arguments, the call passes no URL to [fetch]. *)
Theorem search_needs_configuration site query :
  truthy (doc !! "param-google-cse-key") = None
  \/ truthy (doc !! "param-google-cse-cx") = None ->
  google_search H W doc site query
  = {| fetched := []; completion := Returned (JSON_stringify H configRequired) |}
  /\ prop "configRequired" configRequired = Some (JBool true)
  /\ forall args,
       exists run, call_handler H W doc site "google_search" args = Some run
                   /\ fetched run = [].
Proof.
  intros Hmiss.
  assert (google_search H W doc site query
          = {| fetched := [];
               completion := Returned (JSON_stringify H configRequired) |}) as Hg.
  { unfold google_search.
    destruct Hmiss as [-> | ->]; [done|].
    by destruct (truthy (doc !! "param-google-cse-key")). }
  split; [exact Hg|]. split; [done|].
  intros args. eexists. split; [reflexivity|].
  unfold destructuring. destruct args; try done.
  all: unfold google_search;
    destruct Hmiss as [-> | ->]; [done|];
    by destruct (truthy (doc !! "param-google-cse-key")).
Qed.

End Properties.

(** ** A handler that throws, a handler that is slow *)



(** ** The wire view and the error turns *)

Lemma wireView_sends_no_page_turn ms :
  Forall (fun m => isDisplayOnly m = false) (wireView ms).
Proof.
  apply Forall_forall. intros m Hm.
  apply list_elem_of_In, filter_In in Hm as [_ Hm].
  by destruct (isDisplayOnly m).
Qed.

Lemma wireView_keeps_error_turn ms text :
  errorTurn text ∈ ms -> errorTurn text ∈ wireView ms.
Proof.
  intros Hin. apply list_elem_of_In, filter_In. split; [by apply list_elem_of_In|done].
Qed.

(** C3 fails on the code.  The error turn carries no [isDisplayOnly] mark:
    after a cycle that failed on status 500, the next submission sends
    that error turn to the model among its messages. *)
Theorem error_turn_reaches_the_model :
  let first := submit sampleHost failingWorld samplePage "first question" emptyState in
  let second := submit sampleHost failingWorld samplePage "second question" first.2 in
  let sent := errorTurn (caughtText (apiError 500 "Internal Server Error"
                                       "upstream unavailable")) in
  first.1 = Some (Failed (apiError 500 "Internal Server Error" "upstream unavailable"))
  /\ second.1 = Some Answered
  /\ last (model_calls (trace second.2))
     = Some [systemTurn; userTurn "first question"; sent; userTurn "second question"].
Proof. cbv zeta. split; [|split]; vm_compute; reflexivity. Qed.

(** C7 fails on the code.  The code handed to [new Function] finds
    [document], [window] and [fetch] of the page: the injected names shadow
    fourteen globals and hide none of the others. *)
Theorem sandbox_code_reaches_the_page :
  resolve pageGlobals "document" = HostGlobal "document"
  /\ resolve pageGlobals "window" = HostGlobal "window"
  /\ resolve pageGlobals "fetch" = HostGlobal "fetch"
  /\ resolve pageGlobals "Math" = Injected "Math".
Proof. repeat split; vm_compute; reflexivity. Qed.

(** ** Counterexamples *)




(** ** Instances *)



Lemma iteration_ceiling_witness :
  let calls := [call "call_1" "execute_javascript" "{}"] in
  let r := submit sampleHost (sampleWorld calls) samplePage "question" emptyState in
  is_Some (calls_since emptyState r.2 !! 9)
  /\ r.1 = Some MaxIterations
  /\ last (messages r.2) = Some (errorTurn maxLoopsText)
  /\ length (calls_since emptyState r.2) = 10.
Proof.
  cbv zeta. split; [vm_compute; eexists; reflexivity|].
  eapply (proj2 (iteration_ceiling sampleHost
                   (sampleWorld [call "call_1" "execute_javascript" "{}"])
                   samplePage "question" emptyState)).
  - vm_compute. reflexivity.
  - reflexivity.
Defined.

Lemma model_error_ends_cycle_witness :
  let r := submit sampleHost failingWorld samplePage "first question" emptyState in
  calls_since emptyState r.2 !! 0 = Some [systemTurn; userTurn "first question"]
  /\ llm failingWorld 0 [systemTurn; userTurn "first question"]
     = HttpError 500 "Internal Server Error" "upstream unavailable"
  /\ r.1 = Some (Failed (apiError 500 "Internal Server Error" "upstream unavailable"))
  /\ length (calls_since emptyState r.2) = 1
  /\ errors r.2 = 1.
Proof.
  cbv zeta.
  assert (calls_since emptyState
            (submit sampleHost failingWorld samplePage "first question" emptyState).2 !! 0
          = Some [systemTurn; userTurn "first question"]) as Hcall
    by (vm_compute; reflexivity).
  split; [exact Hcall|]. split; [reflexivity|].
  destruct (model_error_ends_cycle sampleHost failingWorld samplePage "first question"
              emptyState 0 [systemTurn; userTurn "first question"]
              500 "Internal Server Error" "upstream unavailable" Hcall eq_refl)
    as (Ht & Hn & _ & _ & He & _).
  split; [exact Ht|]. split; [exact Hn|exact He].
Defined.

Lemma announcement_precedes_result_witness :
  let calls := [call "call_1" "google_search" "{}";
                call "call_2" "execute_javascript" "{}"] in
  let tc := call "call_2" "execute_javascript" "{}" in
  let st' := dispatch sampleHost (sampleWorld calls) samplePage [1; 0] 0 calls emptyState in
  calls !! 1 = Some tc
  /\ JSON_parse sampleHost "{}" = Some (JObj [])
  /\ exists text l1 l2 l3,
       outcome sampleHost (sampleWorld calls) samplePage 0 1 tc = Some text
       /\ appended emptyState st'
          = l1 ++ [displayMessage sampleHost 2 1 "execute_javascript" (JObj [])] ++ l2
            ++ [displayResult 1 tc text] ++ l3
       /\ toolResultMessage tc text ∈ l3.
Proof.
  cbv zeta. split; [reflexivity|]. split; [reflexivity|].
  destruct (announcement_precedes_result sampleHost
              (sampleWorld [call "call_1" "google_search" "{}";
                            call "call_2" "execute_javascript" "{}"])
              samplePage [1; 0] 0
              [call "call_1" "google_search" "{}";
               call "call_2" "execute_javascript" "{}"]
              emptyState 1 (call "call_2" "execute_javascript" "{}") (JObj [])
              eq_refl eq_refl) as (text & l1 & l2 & l3 & Ho & Happ & Hw & _).
  exists text, l1, l2, l3. split; [exact Ho|]. split; [exact Happ|exact Hw].
Defined.

Lemma search_needs_configuration_witness :
  truthy (samplePage !! "param-google-cse-key") = None
  /\ google_search sampleHost (sampleWorld []) samplePage (0, 0) (Some (JStr "rocq"))
     = {| fetched := [];
          completion := Returned (JSON_stringify sampleHost configRequired) |}.
Proof.
  assert (truthy (samplePage !! "param-google-cse-key") = None) as Hmiss
    by (vm_compute; reflexivity).
  split; [exact Hmiss|].
  exact (proj1 (search_needs_configuration sampleHost (sampleWorld []) samplePage (0, 0)
                  (Some (JStr "rocq")) (or_introl Hmiss))).
Defined.

Lemma wire_results_in_request_order_witness :
  let calls := [call "call_1" "google_search" "{}";
                call "call_2" "execute_javascript" "{}"] in
  let app := appended emptyState
               (dispatch sampleHost (sampleWorld calls) samplePage [1; 0] 0 calls
                  emptyState) in
  forallb (parses sampleHost) calls = true
  /\ tool_call_id <$> wireView app = [Some "call_1"; Some "call_2"]
  /\ toolCallIndex <$> List.filter isDisplayResult app = [Some 1; Some 0].
Proof.
  cbv zeta.
  assert (forallb (parses sampleHost)
            [call "call_1" "google_search" "{}";
             call "call_2" "execute_javascript" "{}"] = true) as Hp by reflexivity.
  split; [exact Hp|].
  destruct (wire_results_in_request_order sampleHost
              (sampleWorld [call "call_1" "google_search" "{}";
                            call "call_2" "execute_javascript" "{}"])
              samplePage 0
              [call "call_1" "google_search" "{}";
               call "call_2" "execute_javascript" "{}"]
              emptyState Hp) as [Hwire Hpage].
  split.
  - destruct (Hwire [1; 0]) as (_ & -> & -> & _). reflexivity.
  - apply (Hpage [1; 0]); [reflexivity|]. apply perm_swap.
Defined.

(** * More of the script *)

(** ** Saved settings *)

Lemma storageKey_inj a b : storageKey a = storageKey b -> a = b.
Proof. unfold storageKey. apply String.app_inj. Qed.

Lemma truthy_empty (v : option string) :
  match truthy v with Some value => value | None => "" end
  = match v with Some value => value | None => "" end.
Proof. by destruct v as [[|c s]|]. Qed.

Lemma load_lookup key (store : gmap string string) :
  loadFromLocalStorage key store = default "" (store !! storageKey key).
Proof. unfold loadFromLocalStorage. rewrite truthy_empty. by destruct (store !! _). Qed.

Lemma load_save key key' value shouldSave (store : gmap string string) :
  loadFromLocalStorage key' (saveToLocalStorage key value shouldSave store)
  = if decide (key = key')
    then (if shouldSave then value else "")
    else loadFromLocalStorage key' store.
Proof.
  rewrite !load_lookup. unfold saveToLocalStorage.
  destruct (decide (key = key')) as [<-|Hne].
  - destruct shouldSave; simpl.
    + destruct (String.eqb_spec value "") as [->|Hv]; simpl.
      * by rewrite lookup_delete_eq.
      * by rewrite lookup_insert_eq.
    + by rewrite lookup_delete_eq.
  - assert (storageKey key <> storageKey key') as Hk.
    { intros E. by apply Hne, storageKey_inj. }
    destruct (shouldSave && negb (String.eqb value "")).
    + by rewrite lookup_insert_ne.
    + by rewrite lookup_delete_ne.
Qed.

Lemma load_delete_keys keys key (store : gmap string string) :
  loadFromLocalStorage key (foldl (fun s k => delete (storageKey k) s) store keys)
  = if bool_decide (key ∈ keys) then "" else loadFromLocalStorage key store.
Proof.
  revert store. induction keys as [|k keys IH]; intros store; cbn [foldl].
  - case_bool_decide as Hin; [by apply elem_of_nil in Hin|done].
  - rewrite IH, !load_lookup.
    destruct (decide (key ∈ keys)) as [Hin|Hout].
    + rewrite (bool_decide_eq_true_2 (key ∈ keys)) by done.
      by rewrite bool_decide_eq_true_2 by (by right).
    + rewrite (bool_decide_eq_false_2 (key ∈ keys)) by done.
      destruct (decide (k = key)) as [->|Hne].
      * rewrite bool_decide_eq_true_2 by left. by rewrite lookup_delete_eq.
      * rewrite bool_decide_eq_false_2.
        -- rewrite lookup_delete_ne; [done|]. intros E. by apply Hne, storageKey_inj.
        -- intros [->|?]%elem_of_cons; done.
Qed.

(** X1.  Loading a setting after saving it gives the saved value back when
    the save box is ticked, and the empty text when it is not (or when the
    value is empty: the entry is removed). *)
Theorem saved_setting_round_trip key value shouldSave (store : gmap string string) :
  loadFromLocalStorage key (saveToLocalStorage key value shouldSave store)
  = if shouldSave then value else "".
Proof. rewrite load_save. by rewrite decide_True. Qed.

(** X2.  Saving or forgetting one setting leaves every other setting as it
    was. *)
Theorem saving_keeps_other_settings key key' value shouldSave
    (store : gmap string string) :
  key <> key' ->
  loadFromLocalStorage key' (saveToLocalStorage key value shouldSave store)
  = loadFromLocalStorage key' store.
Proof. intros Hne. rewrite load_save. by rewrite decide_False. Qed.

(** X3.  After [clearAllSavedKeys] each of its six settings loads as the
    empty text, and every setting stored under another key loads as
    before. *)
Theorem cleared_settings key (store : gmap string string) :
  loadFromLocalStorage key (removeSavedKeys store)
  = if bool_decide (key ∈ savedKeys) then "" else loadFromLocalStorage key store.
Proof. apply load_delete_keys. Qed.

(** X4.  The sidebar stores a tool parameter under its key with only the
    first hyphen replaced, so the two search credentials saved from the
    sidebar are still loaded after [clearAllSavedKeys], while the workflow
    key is cleared. *)
Theorem search_credentials_survive_clearing value (store : gmap string string) :
  let saved key := removeSavedKeys
                     (saveToLocalStorage (paramStorageKey key) value true store) in
  loadFromLocalStorage (paramStorageKey "google-cse-key") (saved "google-cse-key") = value
  /\ loadFromLocalStorage (paramStorageKey "google-cse-cx") (saved "google-cse-cx") = value
  /\ loadFromLocalStorage (paramStorageKey "aipipe-key") (saved "aipipe-key") = "".
Proof.
  cbv zeta. unfold removeSavedKeys. rewrite !load_delete_keys, !load_save.
  repeat split.
Qed.

(** ** The card of a turn *)

Lemma known_name functionName :
  known functionName = true ->
  functionName = "google_search" \/ functionName = "aipipe_workflow"
  \/ functionName = "execute_javascript".
Proof.
  unfold known. intros Hk.
  destruct (String.eqb_spec functionName "google_search"); [by left|].
  destruct (String.eqb_spec functionName "aipipe_workflow"); [by right; left|].
  destruct (String.eqb_spec functionName "execute_javascript"); [by right; right|done].
Qed.

(** X5.  On the page the result of a tool the switch knows is headed by
    the tool's name and carries no badge, in both of its copies: the
    Tool Result badge is not shown for it.  Its announcement carries the
    Tool Call badge. *)
Theorem known_tool_result_has_no_badge (H : Host) total index tc args result :
  known (tc_name tc) = true ->
  card_role (displayResult index tc result) = tc_name tc
  /\ card_badge (displayResult index tc result) = NoBadge
  /\ card_badge (toolResultMessage tc result) = NoBadge
  /\ card_badge (displayMessage H total index (tc_name tc) args) = ToolCallBadge.
Proof.
  intros Hk. unfold card_badge, card_role. simpl.
  destruct (known_name _ Hk) as [-> | [-> | ->]]; done.
Qed.

(** X6.  The card of a turn with role assistant always has a text: a
    placeholder stands in for a missing or empty content. *)
Theorem assistant_card_has_text m :
  role m = "assistant" -> card_text m <> "".
Proof.
  intros Hr. unfold card_text. rewrite Hr. simpl.
  destruct (truthy (content m)) as [[|c s]|] eqn:Hc.
  - by destruct (content m) as [[|]|].
  - destruct (tool_calls m); simpl; done.
  - destruct (tool_calls m); simpl; done.
Qed.

(** ** The search service *)

Lemma search_items_clean index items :
  Forall (fun item => item <> JNull) items ->
  exists results,
    search_items index items = inl results
    /\ length results = length items
    /\ forall k found,
         results !! k = Some found ->
         prop "rank" found = Some (JNum (Z.of_nat (index + k + 1)))
         /\ exists item, items !! k = Some item
                         /\ prop "title" found = prop "title" item
                         /\ prop "link" found = prop "link" item
                         /\ prop "snippet" found = prop "snippet" item.
Proof.
  revert index. induction items as [|item rest IH]; intros index Hclean.
  - exists []. split; [done|]. split; [done|]. intros k found Hk. done.
  - apply Forall_cons in Hclean as [Hitem Hrest].
    destruct (IH (S index) Hrest) as (others & Eo & Hlen & Hprops).
    cbn [search_items].
    assert (exists first, search_item index item = inl first
              /\ prop "rank" first = Some (JNum (Z.of_nat (index + 1)))
              /\ prop "title" first = prop "title" item
              /\ prop "link" first = prop "link" item
              /\ prop "snippet" first = prop "snippet" item) as (first & Ef & Hf).
    { unfold search_item.
      destruct item as [|b|z|s|l|fields]; [done|..]; eexists; (split; [reflexivity|]).
      1-4: by repeat split.
      unfold obj, prop. cbn [omap list_omap fst snd fmap option_fmap option_map].
      destruct (assoc "title" fields), (assoc "link" fields), (assoc "snippet" fields),
        (assoc "displayLink" fields), (assoc "formattedUrl" fields); by repeat split. }
    rewrite Ef, Eo. exists (first :: others).
    split; [done|]. split; [simpl; lia|].
    intros k found Hk. destruct k as [|k]; simpl in Hk.
    + injection Hk as <-. rewrite Nat.add_0_r.
      split; [by destruct Hf|]. exists item. split; [done|]. by destruct Hf as (_ & ? & ? & ?).
    + destruct (Hprops k found Hk) as (Hrank & it & Hit & Hrest').
      split; [by replace (index + S k + 1) with (S index + k + 1) by lia|].
      by exists it.
Qed.

Lemma search_items_length index items results :
  search_items index items = inl results -> length results = length items.
Proof.
  revert index results. induction items as [|item rest IH]; intros index results.
  - by intros [= <-].
  - cbn [search_items]. destruct (search_item index item); [|done].
    destruct (search_items (S index) rest) as [others|] eqn:E; [|done].
    intros [= <-]. simpl. f_equal. by eapply IH.
Qed.

(** X7.  Whatever the search service answers, a payload of the search tool
    never lists more than five results. *)
Theorem search_lists_at_most_five (H : Host) (E : Engine) query reply indented
    payload results :
  search_try H E query reply = Payload indented payload ->
  prop "results" payload = Some (JArr results) ->
  length results <= 5.
Proof.
  unfold search_try. intros Htry Hres.
  destruct reply as [message|response]; [done|].
  destruct (res_ok response); simpl in Htry.
  2:{ destruct (res_json response) as [[| | | | |]|]; done. }
  destruct (res_json response) as [data|]; [|done].
  destruct data as [|b|z|s|l|fields]; [done|..].
  1-4: injection Htry as <- <-; by destruct query.
  destruct (negb (truthyJ (prop "items" (JObj fields))) || _).
  { injection Htry as <- <-.
    by destruct query, (searchInformation "searchTime" (JObj fields)). }
  destruct (prop "items" (JObj fields)) as [[| | | |found|]|]; try done.
  destruct (search_items 0 (take 5 found)) as [listed|] eqn:Hitems; [|done].
  injection Htry as <- <-.
  apply search_items_length in Hitems.
  assert (results = listed) as ->.
  { destruct query, (searchInformation "searchTime" (JObj fields));
      simpl in Hres; congruence. }
  rewrite Hitems, length_take. lia.
Qed.

(** X8.  When the service answers with a non-empty list of items none of
    which is null, the tool lists the first five of them (all when fewer)
    in their order, ranked from 1, each with the title, link and snippet
    of its item. *)
Theorem search_results_ranked (H : Host) (E : Engine) query response data found :
  res_ok response = true ->
  res_json response = inl data ->
  prop "items" data = Some (JArr found) ->
  found <> [] ->
  Forall (fun item => item <> JNull) (take 5 found) ->
  exists payload results,
    search_try H E query (Responded response) = Payload true payload
    /\ prop "success" payload = Some (JBool true)
    /\ prop "results" payload = Some (JArr results)
    /\ length results = Nat.min 5 (length found)
    /\ forall k listed,
         results !! k = Some listed ->
         prop "rank" listed = Some (JNum (Z.of_nat (k + 1)))
         /\ exists item, found !! k = Some item
                         /\ prop "title" listed = prop "title" item
                         /\ prop "link" listed = prop "link" item
                         /\ prop "snippet" listed = prop "snippet" item.
Proof.
  intros Hok Hjson Hitems Hne Hclean.
  destruct (search_items_clean 0 (take 5 found) Hclean) as (results & Er & Hlen & Hprops).
  unfold search_try. rewrite Hok, Hjson. simpl.
  destruct data as [|b|z|s|l|fields]; try done.
  rewrite Hitems.
  assert (negb (truthyJ (Some (JArr found))) || length_is_zero (JArr found) = false) as ->.
  { by destruct found. }
  rewrite Er. eexists _, results. split; [reflexivity|].
  split; [by destruct query|].
  split; [by destruct query, (searchInformation "searchTime" (JObj fields))|].
  split; [by rewrite Hlen, length_take|].
  intros k listed Hk. destruct (Hprops k listed Hk) as (Hrank & item & Hit & Hcopy).
  split; [exact Hrank|]. exists item. split; [|exact Hcopy].
  apply lookup_take_Some in Hit. by destruct Hit.
Qed.

(** X9.  Errors of the search become data: whatever [fetch] ends with, the
    tool writes an object with a boolean [success] that echoes the query;
    when the flag is false the object carries the error message and the
    time, and it is false exactly when the try block raised. *)
Theorem search_errors_become_data (H : Host) (E : Engine) now query reply :
  let payload := search_payload H E now query reply in
  prop "query" payload = query
  /\ match search_try H E query reply with
     | Payload _ _ => prop "success" payload = Some (JBool true)
     | Raised message =>
         prop "success" payload = Some (JBool false)
         /\ prop "error" payload = Some (JStr message)
         /\ prop "timestamp" payload = Some (JStr now)
     end.
Proof.
  cbv zeta. unfold search_payload.
  destruct (search_try H E query reply) as [indented payload|message] eqn:Htry.
  2:{ by destruct query. }
  unfold search_try in Htry.
  destruct reply as [message|response]; [done|].
  destruct (res_ok response); simpl in Htry.
  2:{ destruct (res_json response) as [[| | | | |]|]; done. }
  destruct (res_json response) as [data|]; [|done].
  destruct data as [|b|z|s|l|fields]; [done|..].
  1-4: injection Htry as <- <-; by destruct query.
  destruct (negb (truthyJ (prop "items" (JObj fields))) || _).
  { injection Htry as <- <-.
    by destruct query, (searchInformation "searchTime" (JObj fields)). }
  destruct (prop "items" (JObj fields)) as [[| | | |found|]|]; try done.
  destruct (search_items 0 (take 5 found)) as [listed|]; [|done].
  injection Htry as <- <-.
  by destruct query, (searchInformation "searchTime" (JObj fields)).
Qed.

(** ** The workflow service *)

(** X10.  The request of the workflow tool carries an Authorization header
    exactly when a key is configured, and then it is the bearer form of
    that key. *)
Theorem bearer_only_with_key (H : Host) apiKey workflow payload value :
  ("Authorization", value) ∈ req_headers (workflow_request H apiKey workflow payload)
  <-> exists key, truthy apiKey = Some key /\ value = "Bearer " +:+ key.
Proof.
  unfold workflow_request, workflow_headers. simpl. split.
  - intros Hin.
    apply elem_of_cons in Hin as [Hin|Hin]; [done|].
    apply elem_of_cons in Hin as [Hin|Hin]; [done|].
    destruct (truthy apiKey) as [key|]; [|by apply elem_of_nil in Hin].
    apply list_elem_of_singleton in Hin. injection Hin as ->. by exists key.
  - intros (key & -> & ->). do 2 right. by left.
Qed.

(** X11.  Errors of the workflow become data: whatever [fetch] ends with,
    the tool writes an object that echoes the workflow name and the
    payload; on success it has [success] true and no suggestion, on failure
    [success] false, the error message, and a suggestion that depends only
    on whether a key is configured. *)
Theorem workflow_errors_become_data now apiKey workflow payload reply :
  let written := workflow_payload now apiKey workflow payload reply in
  prop "workflow" written = workflow
  /\ prop "payload" written = payload
  /\ match workflow_try now workflow payload reply with
     | Payload _ _ =>
         prop "success" written = Some (JBool true)
         /\ prop "suggestion" written = None
     | Raised message =>
         prop "success" written = Some (JBool false)
         /\ prop "error" written = Some (JStr message)
         /\ prop "suggestion" written
            = Some (JStr (match truthy apiKey with
                          | Some _ => keySuggestion
                          | None => noKeySuggestion
                          end))
     end.
Proof.
  cbv zeta. unfold workflow_payload.
  destruct (workflow_try now workflow payload reply) as [indented written|message]
    eqn:Htry.
  2:{ by destruct workflow, payload, (truthy apiKey). }
  unfold workflow_try in Htry.
  destruct reply as [message|response]; [done|].
  destruct (res_ok response); simpl in Htry; [|done].
  destruct (res_json response) as [result|]; [|done].
  injection Htry as <- <-. by destruct workflow, payload.
Qed.

(** ** Submissions and the conversation *)

Section Conversation.

Context (H : Host) (W : World) (doc : Document).

Lemma begins_msgs_roles i total index calls :
  Forall (fun m => role m <> "system") (begins_msgs H W doc i total index calls).
Proof.
  revert index. induction calls as [|tc rest IH]; intros index; simpl; [constructor|].
  apply Forall_app_2; [|apply IH].
  unfold begin_msgs.
  destruct (JSON_parse H (tc_arguments tc)) as [args|]; [|constructor].
  destruct (call_handler H W doc (i, index) (tc_name tc) args);
    repeat constructor; done.
Qed.

Lemma dispatch_roles order i calls st :
  Forall (fun m => role m <> "system")
         (appended st (dispatch H W doc order i calls st)).
Proof.
  rewrite dispatch_appended. unfold display_part.
  repeat apply Forall_app_2.
  - apply begins_msgs_roles.
  - apply Forall_forall. intros m Hm.
    by destruct (settle_msgs_index H _ _ _ Hm) as (j & tc & how & _ & ->).
  - generalize 0. induction calls as [|tc rest IH]; intros index; simpl; [constructor|].
    destruct (outcome H W doc i index tc); [|apply IH].
    constructor; [done|apply IH].
Qed.

(** The loop only appends, and never a system turn. *)
Lemma loop_appends remaining i st :
  exists app,
    messages (loop H W doc remaining i st).2 = messages st ++ app
    /\ Forall (fun m => role m <> "system") app.
Proof.
  revert i st. induction remaining as [|rem IH]; intros i st.
  - eexists. split; [reflexivity|]. by repeat constructor.
  - cbn [loop]. cbv zeta.
    destruct (llm W i (wireView (messages st))) as [message|status stText eText|text calls].
    + eexists. split; [reflexivity|]. by repeat constructor.
    + eexists. split; [reflexivity|]. by repeat constructor.
    + destruct calls as [toolCalls|].
      * set (st2 := renderSteps (push (assistantTurn text (Some toolCalls))
                                   (log (EvModelCall (wireView (messages st))) st))).
        destruct (IH (S i) (dispatch H W doc (settles W i) i toolCalls st2))
          as (app & Eapp & Happ).
        pose proof (dispatch_roles (settles W i) i toolCalls st2) as Hd.
        rewrite dispatch_appended in Hd.
        exists ([assistantTurn text (Some toolCalls)]
                ++ (display_part H W doc (settles W i) i toolCalls
                    ++ wire_results H W doc i 0 toolCalls) ++ app).
        split.
        { rewrite Eapp, (dispatch_messages H W doc (settles W i) i toolCalls st2).
          unfold st2. simpl. by rewrite <- !app_assoc. }
        apply Forall_app_2; [by repeat constructor|].
        by apply Forall_app_2.
      * eexists. split; [reflexivity|]. by repeat constructor.
Qed.

(** A submission is turned away, or runs one cycle. *)
Lemma submit_outcome question st :
  ((isProcessing st = true \/ question = ""
    \/ truthy (doc !! "apiKeyInput") = None)
   /\ submit H W doc question st = (None, st))
  \/ (isProcessing st = false /\ question <> ""
      /\ truthy (doc !! "apiKeyInput") <> None
      /\ exists outcome st' app,
           submit H W doc question st = (Some outcome, st')
           /\ isProcessing st' = false
           /\ Forall (fun m => role m <> "system") app
           /\ messages st'
              = (if decide (messages st = []) then [systemTurn] else [])
                ++ messages st ++ userTurn question :: app).
Proof.
  unfold submit.
  destruct (isProcessing st) eqn:Hp; [left; split; [by left|done]|].
  destruct (String.eqb_spec question "") as [->|Hq];
    [left; split; [by right; left|done]|].
  destruct (truthy (doc !! "apiKeyInput")) as [key|] eqn:Hk;
    [|left; split; [by right; right|done]].
  right. split; [done|]. split; [done|]. split; [done|].
  set (st1 := renderSteps (push (userTurn question) (showTyping true st))).
  set (st2 := if (length (messages st1) =? 1)%nat then unshift systemTurn st1 else st1).
  destruct (loop_appends maxLoops 0 st2) as (app & Happ & Hroles).
  destruct (loop H W doc maxLoops 0 st2) as [outcome st3] eqn:Hloop.
  simpl in Happ.
  exists outcome, (showTyping false st3), app.
  split; [done|]. split; [done|]. split; [done|].
  simpl. rewrite Happ. unfold st2, st1. clear Hloop Happ st2 st1 Hp.
  destruct st as [[|m ms] processing events]; simpl.
  - done.
  - rewrite length_app. simpl.
    replace (length ms + 1 =? 0)%nat with false
      by (symmetry; apply Nat.eqb_neq; lia).
    simpl. by rewrite <- app_assoc.
Qed.

(** X12.  A submission is turned away exactly when a cycle is in
    progress, the question is empty, or the model key is missing; a
    submission turned away changes nothing: no turn, no model call. *)
Theorem rejected_submission_changes_nothing question st :
  ((submit H W doc question st).1 = None
   <-> isProcessing st = true \/ question = ""
       \/ truthy (doc !! "apiKeyInput") = None)
  /\ ((submit H W doc question st).1 = None -> (submit H W doc question st).2 = st).
Proof.
  destruct (submit_outcome question st)
    as [[Hc ->]|(Hp & Hq & Hk & outcome & st' & app & -> & _)]; simpl.
  - split; [|done]. by split.
  - split; [|done]. split; [done|]. intros [?|[?|?]]; congruence.
Qed.

(** X13.  A submission never rewrites the conversation: the turns that
    were there stay, in their order; new turns are appended, and the
    system turn is put in front only when the conversation was empty. *)
Theorem submission_keeps_history question st :
  exists before after,
    messages (submit H W doc question st).2 = before ++ messages st ++ after
    /\ (before = [] \/ (before = [systemTurn] /\ messages st = [])).
Proof.
  destruct (submit_outcome question st)
    as [[Hc ->]|(Hp & Hq & Hk & outcome & st' & app & -> & _ & _ & Hm)]; simpl.
  - exists [], []. split; [by rewrite app_nil_r|by left].
  - rewrite Hm. eexists _, _. split; [reflexivity|].
    case_decide; [by right|by left].
Qed.

(** X14.  A conversation that is empty or starts with its only system
    turn stays so through a submission and through clearing; and a
    submission that is accepted on an empty conversation starts it with
    the system turn followed by the question. *)
Theorem conversation_stays_well_started question confirmed st :
  well_started (messages st) ->
  well_started (messages (submit H W doc question st).2)
  /\ well_started (messages (clearConversation confirmed st))
  /\ (messages st = [] ->
      (submit H W doc question st).1 <> None ->
      exists rest, messages (submit H W doc question st).2
                   = systemTurn :: userTurn question :: rest).
Proof.
  intros Hws. split; [|split].
  - destruct (submit_outcome question st)
      as [[Hc ->]|(Hp & Hq & Hk & outcome & st' & app & -> & _ & Hroles & Hm)]; simpl.
    + done.
    + rewrite Hm. right. destruct Hws as [->|(rest & -> & Hrest)].
      * simpl. eexists. split; [reflexivity|]. by constructor.
      * simpl. eexists. split; [reflexivity|].
        apply Forall_app_2; [done|]. by constructor.
  - unfold clearConversation. destruct (messages st) eqn:E; [by rewrite E|].
    destruct confirmed; simpl; [by left|by rewrite E].
  - intros Hempty Hacc.
    destruct (submit_outcome question st)
      as [[Hc Hs]|(Hp & Hq & Hk & outcome & st' & app & -> & _ & _ & Hm)].
    + by rewrite Hs in Hacc.
    + simpl. rewrite Hm, Hempty. simpl. by eexists.
Qed.

(** ** What the model is sent *)




Lemma loop_calls_views remaining i st :
  exists cs,
    model_calls (trace (loop H W doc remaining i st).2) = model_calls (trace st) ++ cs
    /\ Forall (fun msgs => exists more, msgs = wireView (messages st ++ more)) cs.
Proof.
  revert i st. induction remaining as [|rem IH]; intros i st.
  - exists []. simpl. rewrite model_calls_app, app_nil_r. simpl.
    split; [by rewrite app_nil_r|constructor].
  - assert (exists more, wireView (messages st) = wireView (messages st ++ more)) as Hfirst.
    { exists []. by rewrite app_nil_r. }
    cbn [loop]. cbv zeta.
    destruct (llm W i (wireView (messages st))) as [message|status stText eText|text calls].
    + exists [wireView (messages st)]. simpl.
      rewrite !model_calls_app. simpl. rewrite app_nil_r.
      split; [done|]. by repeat constructor.
    + exists [wireView (messages st)]. simpl.
      rewrite !model_calls_app. simpl. rewrite app_nil_r.
      split; [done|]. by repeat constructor.
    + destruct calls as [toolCalls|].
      * set (st2 := renderSteps (push (assistantTurn text (Some toolCalls))
                                   (log (EvModelCall (wireView (messages st))) st))).
        destruct (IH (S i) (dispatch H W doc (settles W i) i toolCalls st2))
          as (cs & Ecs & Hcs).
        exists (wireView (messages st) :: cs). split.
        { rewrite Ecs, dispatch_model_calls. unfold st2. simpl.
          rewrite !model_calls_app. simpl. by rewrite app_nil_r, <- app_assoc. }
        constructor; [done|].
        eapply Forall_impl; [exact Hcs|]. intros msgs (more & ->).
        rewrite dispatch_messages. unfold st2. simpl.
        eexists. rewrite <- !app_assoc. reflexivity.
      * exists [wireView (messages st)]. simpl.
        rewrite !model_calls_app. simpl. rewrite !app_nil_r.
        split; [done|]. by repeat constructor.
Qed.

(** X16.  No model call of a submission carries a turn marked for the
    page only; and in a conversation that is empty or starts with its
    system turn, every model call starts with the system turn. *)
Theorem model_is_sent_no_page_turn question st msgs :
  msgs ∈ calls_since st (submit H W doc question st).2 ->
  Forall (fun m => isDisplayOnly m = false) msgs
  /\ (well_started (messages st) -> head msgs = Some systemTurn).
Proof.
  unfold submit.
  destruct (isProcessing st); [rewrite calls_since_self; by intros ?%elem_of_nil|].
  destruct (String.eqb question ""); [rewrite calls_since_self; by intros ?%elem_of_nil|].
  destruct (truthy (doc !! "apiKeyInput"));
    [|rewrite calls_since_self; by intros ?%elem_of_nil].
  set (st1 := renderSteps (push (userTurn question) (showTyping true st))).
  set (st2 := if (length (messages st1) =? 1)%nat then unshift systemTurn st1 else st1).
  destruct (loop_calls_views maxLoops 0 st2) as (cs & Ecs & Hcs).
  assert (model_calls (trace st2) = model_calls (trace st)) as Et.
  { unfold st2, st1. destruct (length _ =? 1)%nat; simpl;
      rewrite model_calls_app; simpl; by rewrite app_nil_r. }
  rewrite Et in Ecs.
  destruct (loop H W doc maxLoops 0 st2) as [outcome st3]. cbn [fst snd] in *.
  assert (calls_since st (showTyping false st3) = cs) as -> by by apply calls_since_app.
  intros Hin. rewrite Forall_forall in Hcs. destruct (Hcs msgs Hin) as (more & ->).
  split; [apply wireView_sends_no_page_turn|].
  intros Hws. unfold st2, st1. clear -Hws.
  destruct st as [ms processing events]. simpl in *.
  destruct Hws as [->|(rest & -> & _)]; simpl; [done|].
  rewrite length_app. simpl.
  replace (length rest + 1 =? 0)%nat with false
    by (symmetry; apply Nat.eqb_neq; lia).
  done.
Qed.

(** ** How a cycle ends *)

Lemma loop_verdict remaining i st :
  exists cs,
    model_calls (trace (loop H W doc remaining i st).2) = model_calls (trace st) ++ cs
    /\ match (loop H W doc remaining i st).1 with
       | Answered =>
           exists text, last (messages (loop H W doc remaining i st).2)
                        = Some (assistantTurn text None)
       | MaxIterations =>
           last (messages (loop H W doc remaining i st).2)
           = Some (errorTurn maxLoopsText)
           /\ length cs = remaining
       | Failed message =>
           last (messages (loop H W doc remaining i st).2)
           = Some (errorTurn (caughtText message))
       end.
Proof.
  revert i st. induction remaining as [|rem IH]; intros i st.
  - exists []. simpl. rewrite model_calls_app, app_nil_r. simpl.
    split; [by rewrite app_nil_r|]. split; [apply last_snoc|done].
  - cbn [loop]. cbv zeta.
    destruct (llm W i (wireView (messages st))) as [message|status stText eText|text calls].
    + exists [wireView (messages st)]. simpl.
      rewrite !model_calls_app. simpl. rewrite app_nil_r.
      split; [done|]. apply last_snoc.
    + exists [wireView (messages st)]. simpl.
      rewrite !model_calls_app. simpl. rewrite app_nil_r.
      split; [done|]. apply last_snoc.
    + destruct calls as [toolCalls|].
      * set (st2 := renderSteps (push (assistantTurn text (Some toolCalls))
                                   (log (EvModelCall (wireView (messages st))) st))).
        destruct (IH (S i) (dispatch H W doc (settles W i) i toolCalls st2))
          as (cs & Ecs & Hcs).
        exists (wireView (messages st) :: cs). split.
        { rewrite Ecs, dispatch_model_calls. unfold st2. simpl.
          rewrite !model_calls_app. simpl. by rewrite app_nil_r, <- app_assoc. }
        destruct (loop H W doc rem (S i)
                    (dispatch H W doc (settles W i) i toolCalls st2)) as [verdict st3].
        cbn [fst snd] in *. destruct verdict; [done| |done].
        destruct Hcs as [Hlast Hlen]. split; [done|]. simpl. by rewrite Hlen.
      * exists [wireView (messages st)]. simpl.
        rewrite !model_calls_app. simpl. rewrite !app_nil_r.
        split; [done|]. exists text. apply last_snoc.
Qed.

(** X17.  A cycle ends with its verdict as the last turn: the final answer
    of the model (an assistant turn without tool requests) when it is
    answered, the iteration-limit error turn after exactly ten model calls
    when the limit is hit, and the error turn with the message of the
    failure when it fails. *)
Theorem cycle_ends_with_its_verdict question st :
  let r := submit H W doc question st in
  match r.1 with
  | None => r.2 = st
  | Some Answered => exists text, last (messages r.2) = Some (assistantTurn text None)
  | Some MaxIterations =>
      last (messages r.2) = Some (errorTurn maxLoopsText)
      /\ length (calls_since st r.2) = 10
  | Some (Failed message) =>
      last (messages r.2) = Some (errorTurn (caughtText message))
  end.
Proof.
  cbv zeta. destruct (submit_cases H W doc question st) as [->|(st2 & Hc & _ & ->)].
  - done.
  - cbn [fst snd].
    destruct (loop_verdict maxLoops 0 st2) as (cs & Ecs & Hv).
    rewrite Hc in Ecs.
    assert (calls_since st (showTyping false (loop H W doc maxLoops 0 st2).2) = cs)
      as -> by by apply calls_since_app.
    destruct (loop H W doc maxLoops 0 st2) as [verdict st3].
    cbn [fst snd] in *. by destruct verdict.
Qed.

(** ** Which handlers a dispatch starts *)

Lemma call_handler_some_known site functionName args run :
  call_handler H W doc site functionName args = Some run -> known functionName = true.
Proof.
  unfold call_handler, known.
  destruct (String.eqb functionName "google_search"); [done|].
  destruct (String.eqb functionName "aipipe_workflow"); [done|].
  by destruct (String.eqb functionName "execute_javascript").
Qed.

Lemma dispatch_event_shift index tc calls e :
  dispatch_event H (S index) calls e -> dispatch_event H index (tc :: calls) e.
Proof.
  destruct e as [snapshot|msgs|at_index fn args|url|n]; simpl; try done.
  intros (Hk & j & tc' & -> & Hj & Hn & Hp). split; [done|].
  exists (S j), tc'. split; [lia|]. by split.
Qed.

Lemma begin_call_events i total index tc rest st :
  exists tr, trace (begin_call H W doc i total index tc st).2 = trace st ++ tr
             /\ Forall (dispatch_event H index (tc :: rest)) tr.
Proof.
  unfold begin_call.
  destruct (JSON_parse H (tc_arguments tc)) as [args|] eqn:Hp; simpl.
  - destruct (call_handler H W doc (i, index) (tc_name tc) args) as [run|] eqn:Hc; simpl.
    + rewrite fold_fetch_trace. simpl. eexists. split.
      * rewrite <- !app_assoc. reflexivity.
      * simpl. constructor; [done|]. constructor.
        { split; [by eapply call_handler_some_known|].
          exists 0, tc. by rewrite Nat.add_0_r. }
        apply Forall_forall. intros e He.
        apply list_elem_of_In, in_map_iff in He as (u & <- & _). done.
    + eexists. split; [rewrite <- app_assoc; reflexivity|]. by repeat constructor.
  - exists []. by rewrite app_nil_r.
Qed.

Lemma begin_calls_events i total index calls st :
  exists tr, trace (begin_calls H W doc i total index calls st).2 = trace st ++ tr
             /\ Forall (dispatch_event H index calls) tr.
Proof.
  revert index st. induction calls as [|tc rest IH]; intros index st.
  - exists []. simpl. by rewrite app_nil_r.
  - rewrite begin_calls_cons.
    destruct (begin_call_events i total index tc rest st) as (tr1 & E1 & Q1).
    destruct (IH (S index) (begin_call H W doc i total index tc st).2)
      as (tr2 & E2 & Q2).
    exists (tr1 ++ tr2). split.
    + by rewrite E2, E1, <- app_assoc.
    + apply Forall_app_2; [done|].
      eapply Forall_impl; [exact Q2|]. intros e. apply dispatch_event_shift.
Qed.

Lemma settle_events order p index calls :
  exists tr, trace (settle H order p).2 = trace p.2 ++ tr
             /\ Forall (dispatch_event H index calls) tr.
Proof.
  unfold settle. revert p. induction order as [|k rest IH]; intros p; simpl.
  - exists []. by rewrite app_nil_r.
  - destruct (IH (resume H k p)) as (tr2 & E2 & Q2).
    assert (exists tr1, trace (resume H k p).2 = trace p.2 ++ tr1
                        /\ Forall (dispatch_event H index calls) tr1)
      as (tr1 & E1 & Q1).
    { unfold resume.
      destruct (p.1 !! k) as [[tc how| |]|]; simpl;
        try (exists []; by rewrite app_nil_r).
      eexists. split; [reflexivity|]. by repeat constructor. }
    exists (tr1 ++ tr2). split.
    + by rewrite E2, E1, <- app_assoc.
    + by apply Forall_app_2.
Qed.

(** X18.  A dispatch makes no model call, and it starts a handler only for
    a request of the turn whose arguments parse and whose name the switch
    knows, handing it the parsed arguments of that request. *)
Theorem handlers_start_for_requests order i calls st :
  exists tr,
    trace (dispatch H W doc order i calls st) = trace st ++ tr
    /\ Forall (dispatch_event H 0 calls) tr.
Proof.
  unfold dispatch. cbv zeta.
  destruct (settle_events (order ++ seq 0 (length calls))
              (begin_calls H W doc i (length calls) 0 calls st) 0 calls)
    as (tr2 & E2 & Q2).
  destruct (begin_calls_events i (length calls) 0 calls st) as (tr1 & E1 & Q1).
  match goal with
  | |- context [if ?b then _ else _] => destruct b
  end; simpl; rewrite E2, E1.
  - exists (tr1 ++ tr2 ++ [EvWarn (length (List.filter rejected
              (settle H (order ++ seq 0 (length calls))
                 (begin_calls H W doc i (length calls) 0 calls st)).1))]).
    split; [by rewrite <- !app_assoc|].
    repeat apply Forall_app_2; try done. by repeat constructor.
  - exists (tr1 ++ tr2). split; [by rewrite <- !app_assoc|].
    by apply Forall_app_2.
Qed.

End Conversation.

(** ** Instances of the properties above *)

Lemma saving_keeps_other_settings_witness :
  "api_key" <> "model"
  /\ loadFromLocalStorage "model"
       (saveToLocalStorage "api_key" "sk-sample" true {[ storageKey "model" := "gpt" ]})
     = loadFromLocalStorage "model" {[ storageKey "model" := "gpt" ]}.
Proof.
  assert ("api_key" <> "model") as Hne by discriminate.
  split; [exact Hne|].
  exact (saving_keeps_other_settings "api_key" "model" "sk-sample" true
           {[ storageKey "model" := "gpt" ]} Hne).
Defined.

Lemma known_tool_result_has_no_badge_witness :
  known "google_search" = true
  /\ card_badge (displayResult 0 (call "call_1" "google_search" "{}") "search") = NoBadge.
Proof.
  split; [reflexivity|].
  exact (proj1 (proj2 (known_tool_result_has_no_badge sampleHost 1 0
                         (call "call_1" "google_search" "{}") (JObj []) "search"
                         eq_refl))).
Defined.

Lemma assistant_card_has_text_witness :
  role (assistantTurn None None) = "assistant"
  /\ card_text (assistantTurn None None) <> "".
Proof.
  split; [reflexivity|].
  exact (assistant_card_has_text (assistantTurn None None) eq_refl).
Defined.

Lemma search_lists_at_most_five_witness :
  exists indented payload results,
    search_try sampleHost sampleEngine (Some (JStr "rocq")) (Responded sampleResponse)
    = Payload indented payload
    /\ prop "results" payload = Some (JArr results)
    /\ length results <= 5.
Proof.
  eexists _, _, _.
  assert (search_try sampleHost sampleEngine (Some (JStr "rocq")) (Responded sampleResponse)
          = Payload true
              (obj [("success", Some (JBool true));
                    ("query", Some (JStr "rocq"));
                    ("totalResults", Some (JNum 0));
                    ("searchTime", None);
                    ("results",
                     Some (JArr (match search_items 0 (take 5 sampleItems) with
                                 | inl results => results
                                 | inr _ => []
                                 end)))])) as Htry by reflexivity.
  split; [exact Htry|]. split; [reflexivity|].
  exact (search_lists_at_most_five sampleHost sampleEngine _ _ _ _ _ Htry eq_refl).
Defined.

Lemma search_results_ranked_witness :
  res_ok sampleResponse = true
  /\ prop "items" (JObj [("items", JArr sampleItems)]) = Some (JArr sampleItems)
  /\ exists payload results,
       search_try sampleHost sampleEngine None (Responded sampleResponse)
       = Payload true payload
       /\ prop "results" payload = Some (JArr results)
       /\ length results = 5.
Proof.
  split; [reflexivity|]. split; [reflexivity|].
  destruct (search_results_ranked sampleHost sampleEngine None sampleResponse
              (JObj [("items", JArr sampleItems)]) sampleItems
              eq_refl eq_refl eq_refl)
    as (payload & results & Htry & _ & Hres & Hlen & _).
  - discriminate.
  - repeat constructor; discriminate.
  - exists payload, results. split; [exact Htry|]. split; [exact Hres|exact Hlen].
Defined.

Lemma conversation_stays_well_started_witness :
  well_started (messages emptyState)
  /\ well_started
       (messages (submit sampleHost failingWorld samplePage "first question"
                    emptyState).2).
Proof.
  assert (well_started (messages emptyState)) as Hws by (left; reflexivity).
  split; [exact Hws|].
  exact (proj1 (conversation_stays_well_started sampleHost failingWorld samplePage
                  "first question" true emptyState Hws)).
Defined.


Lemma model_is_sent_no_page_turn_witness :
  let msgs := [systemTurn; userTurn "first question"] in
  msgs ∈ calls_since emptyState
           (submit sampleHost failingWorld samplePage "first question" emptyState).2
  /\ Forall (fun m => isDisplayOnly m = false) msgs.
Proof.
  cbv zeta.
  assert ([systemTurn; userTurn "first question"]
          ∈ calls_since emptyState
              (submit sampleHost failingWorld samplePage "first question" emptyState).2)
    as Hin.
  { apply list_elem_of_lookup. exists 0. vm_compute. reflexivity. }
  split; [exact Hin|].
  exact (proj1 (model_is_sent_no_page_turn sampleHost failingWorld samplePage
                  "first question" emptyState _ Hin)).
Defined.
